(** * A shallow embedding of [DiskImage] (emulator/classes/diskimage.ts)

    The TypeScript class is modelled as explicit state passing over a
    record [DiskImage].  JavaScript numbers are integers ([Z]), or
    [option Z] where a value may be [NaN] or [undefined] ([None]); strings
    are lists of UTF-16 code units; a [Uint8Array] is a length together
    with a cell function; a JavaScript object used as a map is the
    association list of its own properties in creation order; reads of a
    typed array outside its bounds give [None] (JavaScript's
    [undefined]). *)

From Stdlib Require Import String Ascii ZArith List Bool Lia.
From Stdlib Require Import Sorting.Permutation Sorting.Sorted.
Import ListNotations.
Open Scope Z_scope.

(** ** JavaScript values and strings *)

(** A JavaScript string as its sequence of UTF-16 code units. *)
Definition jsstr := list Z.

(** String literals of this development, as code units. *)
Definition js (s : string) : jsstr :=
  map (fun a => Z.of_nat (nat_of_ascii a)) (list_ascii_of_string s).

Fixpoint jsstr_eqb (a b : jsstr) : bool :=
  match a, b with
  | [], [] => true
  | x :: a', y :: b' => (x =? y) && jsstr_eqb a' b'
  | _, _ => false
  end.

(** [String.prototype.trim]: the code units ECMAScript counts as white
    space or line terminators. *)
Definition js_is_ws (c : Z) : bool :=
  (9 <=? c) && (c <=? 13) || (c =? 32) || (c =? 160) || (c =? 5760)
  || (8192 <=? c) && (c <=? 8202) || (c =? 8232) || (c =? 8233)
  || (c =? 8239) || (c =? 8287) || (c =? 12288) || (c =? 65279).

Fixpoint drop_ws (s : jsstr) : jsstr :=
  match s with
  | c :: s' => if js_is_ws c then drop_ws s' else s
  | [] => []
  end.

Definition js_trim (s : jsstr) : jsstr := rev (drop_ws (rev (drop_ws s))).

(** The regular expression [/[0-9A-Za-z_\-]/] on one code unit. *)
Definition is_fs_char (c : Z) : bool :=
  (48 <=? c) && (c <=? 57) || (65 <=? c) && (c <=? 90)
  || (97 <=? c) && (c <=? 122) || (c =? 95) || (c =? 45).

(** [ch >= 32 && ch < 128] on a typed-array read ([undefined] fails). *)
Definition printable (v : option Z) : bool :=
  match v with Some ch => (32 <=? ch) && (ch <? 128) | None => false end.

(** [x & m] where [x] may be [undefined] (ToInt32(undefined) = 0). *)
Definition js_and (v : option Z) (m : Z) : Z :=
  match v with Some z => Z.land z m | None => 0 end.

(** ToInt32 and ToIndex of a value that may be [undefined] or [NaN]:
    [x | undefined], [undefined << k] and [new Uint8Array(NaN)] read it
    as 0. *)
Definition js_num (v : option Z) : Z := match v with Some z => z | None => 0 end.

(** [a + b] on numbers that may be [NaN] or [undefined]. *)
Definition num_add (a b : option Z) : option Z :=
  match a, b with Some x, Some y => Some (x + y) | _, _ => None end.

(** [v < c]: false when [v] is [NaN] or [undefined]. *)
Definition num_ltb (v : option Z) (c : Z) : bool :=
  match v with Some z => z <? c | None => false end.

(** [v === c] for a number [c]: false when [v] is [NaN] or [undefined]. *)
Definition num_eqb (v : option Z) (c : Z) : bool :=
  match v with Some z => z =? c | None => false end.

(** ToUint8 of a value assigned into a [Uint8Array]. *)
Definition to_uint8 (v : option Z) : Z :=
  match v with Some z => z mod 256 | None => 0 end.

(** [Math.ceil(a / b)] for [b > 0]. *)
Definition ceil_div (a b : Z) : Z := - ((- a) / b).

(** ** [Uint8Array] *)

Record u8arr := { ulen : Z; ucell : Z -> Z }.

(** [new Uint8Array(n)]: zero filled. *)
Definition u8_new (n : Z) : u8arr := {| ulen := Z.max 0 n; ucell := fun _ => 0 |}.

Definition in_bounds (a : u8arr) (i : Z) : bool := (0 <=? i) && (i <? ulen a).

(** [a[i]]: a byte, or [undefined] outside the array. *)
Definition u8_get (a : u8arr) (i : Z) : option Z :=
  if in_bounds a i then Some (ucell a i mod 256) else None.

(** [a[i] = v]: stored modulo 256; ignored outside the array. *)
Definition u8_set (a : u8arr) (i v : Z) : u8arr :=
  if in_bounds a i
  then {| ulen := ulen a; ucell := fun j => if j =? i then v mod 256 else ucell a j |}
  else a.

(** [a[i] |= v]. *)
Definition u8_or (a : u8arr) (i v : Z) : u8arr :=
  match u8_get a i with
  | Some old => u8_set a i (Z.lor old v)
  | None => a
  end.

(** [Uint8Array.from(xs)]. *)
Fixpoint u8_fill (a : u8arr) (i : Z) (xs : list Z) : u8arr :=
  match xs with
  | [] => a
  | x :: xs' => u8_fill (u8_set a i x) (i + 1) xs'
  end.

Definition u8_of_list (xs : list Z) : u8arr :=
  u8_fill (u8_new (Z.of_nat (length xs))) 0 xs.

(** [writeByte], [writeWord], [writeLEWord], [writeString] on a
    [Uint8Array]; each returns the new buffer and the next offset. *)
Definition writeByte (d : u8arr) (n b : Z) : u8arr * Z :=
  (u8_set d n (Z.land b 255), n + 1).

Definition writeWord (d : u8arr) (n w : Z) : u8arr * Z :=
  let d1 := u8_set d n (Z.shiftr (Z.land w 65280) 8) in
  (u8_set d1 (n + 1) (Z.land w 255), n + 2).

Definition writeLEWord (d : u8arr) (n w : Z) : u8arr * Z :=
  let d1 := u8_set d n (Z.land w 255) in
  (u8_set d1 (n + 1) (Z.shiftr (Z.land w 65280) 8), n + 2).

Fixpoint write_units (d : u8arr) (n : Z) (s : jsstr) : u8arr * Z :=
  match s with
  | [] => (d, n)
  | c :: s' => write_units (u8_set d n c) (n + 1) s'
  end.

Definition writeString (d : u8arr) (n : Z) (str : jsstr) (padLen : nat) : u8arr * Z :=
  let '(d1, n1) := write_units d n (firstn padLen str) in
  write_units d1 n1 (repeat 32 (padLen - length str)).

(** The same helpers on a plain JavaScript array that is only ever
    written at its end ([n] equals the array length in [createTIFile]). *)
Definition pushByte (d : list Z) (b : Z) : list Z := d ++ [Z.land b 255].

Definition pushWord (d : list Z) (w : Z) : list Z :=
  d ++ [Z.shiftr (Z.land w 65280) 8; Z.land w 255].

Definition pushLEWord (d : list Z) (w : Z) : list Z :=
  d ++ [Z.land w 255; Z.shiftr (Z.land w 65280) 8].

Definition pushString (d : list Z) (str : jsstr) (padLen : nat) : list Z :=
  d ++ firstn padLen str ++ repeat 32 (padLen - length str).

(** ** Records and files (diskfile.ts, disk.ts) *)

(** Enumerations of disk.ts, with the values the status-flag bits use. *)
Definition FileType_DATA : Z := 0.
Definition FileType_PROGRAM : Z := 1.
Definition RecordType_FIXED : Z := 0.
Definition RecordType_VARIABLE : Z := 1.
Definition DataType_DISPLAY : Z := 0.
Definition DataType_INTERNAL : Z := 1.

(** Modelled from the spec: [FixedRecord] and [VariableRecord] of
    diskfile.ts (not among the sources).  A record holds its payload as
    given ("short payload is zero-padded conceptually at write time by the
    packer, not by the record itself"); a payload element read past the end
    of an input buffer is [undefined]. *)
Inductive DiskRecord :=
| FixedRecord (data : list (option Z)) (length : Z)
| VariableRecord (data : list (option Z)).

Definition getData (r : DiskRecord) : list (option Z) :=
  match r with FixedRecord d _ => d | VariableRecord d => d end.

(** Modelled from the spec: the [DiskFile] class of diskfile.ts (not among
    the sources): a name, the type fields, the ordered records (DATA) and
    the program bytes (PROGRAM). *)
Record DiskFile := {
  df_name : jsstr;
  df_fileType : Z;
  df_recordType : Z;
  df_recordLength : Z;
  df_dataType : Z;
  df_records : list DiskRecord;
  df_program : list Z
}.

Definition newDiskFile (name : jsstr) (fileType recordType recordLength dataType : Z) : DiskFile :=
  {| df_name := name; df_fileType := fileType; df_recordType := recordType;
     df_recordLength := recordLength; df_dataType := dataType;
     df_records := []; df_program := [] |}.

Definition putRecord (f : DiskFile) (r : DiskRecord) : DiskFile :=
  {| df_name := df_name f; df_fileType := df_fileType f; df_recordType := df_recordType f;
     df_recordLength := df_recordLength f; df_dataType := df_dataType f;
     df_records := df_records f ++ [r]; df_program := df_program f |}.

Definition setProgram (f : DiskFile) (p : list Z) : DiskFile :=
  {| df_name := df_name f; df_fileType := df_fileType f; df_recordType := df_recordType f;
     df_recordLength := df_recordLength f; df_dataType := df_dataType f;
     df_records := df_records f; df_program := p |}.

Definition getRecordCount (f : DiskFile) : Z := Z.of_nat (length (df_records f)).

(** Modelled from the spec: the sectors a VARIABLE record list occupies
    under the packing rule of 4.3 (a record goes to a new sector when the
    rest of the current one cannot hold its length byte and payload). *)
Fixpoint var_sectors (left : Z) (used : Z) (lens : list Z) : Z * Z :=
  match lens with
  | [] => (used, left)
  | l :: lens' =>
      if left <=? l then var_sectors (256 - (l + 1)) (used + 1) lens'
      else var_sectors (left - (l + 1)) used lens'
  end.

(** Modelled from the spec: [getSectorCount] and [getEOFOffset] of
    [DiskFile] ("number of 256-byte sectors the content occupies, rounded
    per packing rule"; "bytes used in the file's last sector, 0 meaning
    full sector"). *)
Definition getSectorCount (f : DiskFile) : Z :=
  if df_fileType f =? FileType_DATA then
    if df_recordType f =? RecordType_FIXED then
      (if df_recordLength f <=? 0 then 0
       else let rps := 256 / df_recordLength f in
            if rps =? 0 then 0 else ceil_div (getRecordCount f) rps)
    else fst (var_sectors 256 1
                (map (fun r => Z.of_nat (length (getData r))) (df_records f)))
  else ceil_div (Z.of_nat (length (df_program f))) 256.

Definition getEOFOffset (f : DiskFile) : Z :=
  if df_fileType f =? FileType_DATA then
    if df_recordType f =? RecordType_FIXED then
      (if df_recordLength f <=? 0 then 0
       else let rps := 256 / df_recordLength f in
            if rps =? 0 then 0 else (getRecordCount f mod rps) * df_recordLength f)
    else (256 - snd (var_sectors 256 1
                      (map (fun r => Z.of_nat (length (getData r))) (df_records f)))) mod 256
  else Z.of_nat (length (df_program f)) mod 256.

(** ** The disk image and its catalog *)

(** [PhysicalProperties]: the constructor stores its arguments as given;
    [loadBinaryImage] passes [NaN] or [undefined] for the fields of a
    buffer too short to hold them. *)
Record PhysicalProperties := {
  totalSectors : option Z;
  sectorsPerTrack : option Z;
  tracksPerSide : option Z;
  numberOfSides : option Z;
  density : option Z
}.

Record DiskImageEvent := { ev_type : string; ev_name : jsstr }.

(** The fields of [DiskImage].  [di_handler] records whether
    [eventHandler] is a function; the handler's observable behaviour is
    modelled as the log [di_events] of the events it has received. *)
Record DiskImage := {
  di_name : jsstr;
  di_files : list (jsstr * DiskFile);
  di_geometry : PhysicalProperties;
  di_binaryImage : option u8arr;
  di_handler : bool;
  di_events : list DiskImageEvent
}.

Definition set_files (st : DiskImage) (fs : list (jsstr * DiskFile)) : DiskImage :=
  {| di_name := di_name st; di_files := fs; di_geometry := di_geometry st;
     di_binaryImage := di_binaryImage st; di_handler := di_handler st;
     di_events := di_events st |}.

Definition set_binaryImage (st : DiskImage) (b : option u8arr) : DiskImage :=
  {| di_name := di_name st; di_files := di_files st; di_geometry := di_geometry st;
     di_binaryImage := b; di_handler := di_handler st; di_events := di_events st |}.

(** [new DiskImage(name, eventHandler)]. *)
Definition newDiskImage (name : jsstr) (handler : bool) : DiskImage :=
  {| di_name := name; di_files := [];
     di_geometry := {| totalSectors := Some 1440; sectorsPerTrack := Some 18;
                       tracksPerSide := Some 2; numberOfSides := Some 2; density := Some 2 |};
     di_binaryImage := None; di_handler := handler; di_events := [] |}.

(** [fireEvent]. *)
Definition fireEvent (st : DiskImage) (ev : DiskImageEvent) : DiskImage :=
  if di_handler st
  then {| di_name := di_name st; di_files := di_files st; di_geometry := di_geometry st;
          di_binaryImage := di_binaryImage st; di_handler := di_handler st;
          di_events := di_events st ++ [ev] |}
  else st.

(** The property name [__proto__]. *)
Definition proto_key : jsstr := js "__proto__".

(** Creating or updating an own data property: an existing property keeps
    its place, a new one comes last. *)
Fixpoint obj_define {A} (k : jsstr) (v : A) (o : list (jsstr * A)) : list (jsstr * A) :=
  match o with
  | [] => [(k, v)]
  | (k', v') :: o' => if jsstr_eqb k k' then (k, v) :: o' else (k', v') :: obj_define k v o'
  end.

(** [obj[k] = v] on an object created by [{}], where [v] is an object:
    [obj.__proto__ = v] runs the setter inherited from [Object.prototype],
    which replaces the object's prototype and creates no own property; any
    other name is an own data property. *)
Definition obj_set {A} (k : jsstr) (v : A) (o : list (jsstr * A)) : list (jsstr * A) :=
  if jsstr_eqb k proto_key then o else obj_define k v o.

(** [delete obj[k]]. *)
Definition obj_delete {A} (k : jsstr) (o : list (jsstr * A)) : list (jsstr * A) :=
  filter (fun p => negb (jsstr_eqb k (fst p))) o.

Fixpoint obj_get {A} (k : jsstr) (o : list (jsstr * A)) : option A :=
  match o with
  | [] => None
  | (k', v) :: o' => if jsstr_eqb k k' then Some v else obj_get k o'
  end.

(** [invalidateBinaryImage]. *)
Definition invalidateBinaryImage (st : DiskImage) : DiskImage := set_binaryImage st None.

(** [putFile]. *)
Definition putFile (st : DiskImage) (file : DiskFile) : DiskImage :=
  let st1 := set_files st (obj_set (df_name file) file (di_files st)) in
  let st2 := invalidateBinaryImage st1 in
  fireEvent st2 {| ev_type := "fileAdded"; ev_name := df_name file |}.

(** [getFile]: the own property of that name.  Names the catalog object
    inherits ([__proto__], [toString], ...) give the inherited value in
    the code; they are outside this model, which gives [None] for every
    name that is not an own property. *)
Definition getFile (st : DiskImage) (fileName : jsstr) : option DiskFile :=
  obj_get fileName (di_files st).

(** [deleteFile]. *)
Definition deleteFile (st : DiskImage) (fileName : jsstr) : DiskImage :=
  let st1 := set_files st (obj_delete fileName (di_files st)) in
  let st2 := invalidateBinaryImage st1 in
  fireEvent st2 {| ev_type := "fileDeleted"; ev_name := fileName |}.

(** *** [String.prototype.localeCompare]

    The host's collation is implementation-defined; the functions that use
    it ([getFilesArray] and what calls it) take it as a parameter
    [localeCompare].  ECMAScript requires it to be a consistent comparator
    on all strings, in particular antisymmetric.

    [root_localeCompare] is one such collation, used for the concrete
    inputs: on the letters and digits it orders as the ICU root collation
    of the default locales does (digits before letters, letters compared
    without case, then a lowercase letter before its uppercase form).
    Other code units come before the digits, [_] and [-] first, the rest
    in code-unit order; ICU orders those among themselves differently, and
    no concrete input of this development uses them. *)
Definition collation_primary (c : Z) : Z :=
  if c =? 95 then 1
  else if c =? 45 then 2
  else if (48 <=? c) && (c <=? 57) then 100000 + (c - 48)
  else if (97 <=? c) && (c <=? 122) then 200000 + (c - 97)
  else if (65 <=? c) && (c <=? 90) then 200000 + (c - 65)
  else 3 + c.

Definition collation_tertiary (c : Z) : Z :=
  if (65 <=? c) && (c <=? 90) then 1 else 0.

Fixpoint lex_compare (a b : list Z) : comparison :=
  match a, b with
  | [], [] => Eq
  | [], _ :: _ => Lt
  | _ :: _, [] => Gt
  | x :: a', y :: b' =>
      match Z.compare x y with Eq => lex_compare a' b' | c => c end
  end.

Definition root_localeCompare (a b : jsstr) : comparison :=
  match lex_compare (map collation_primary a) (map collation_primary b) with
  | Eq => lex_compare (map collation_tertiary a) (map collation_tertiary b)
  | c => c
  end.

(** [Array.prototype.sort] with a comparator: a stable sort (ES2019),
    written as insertion of each element after the equal ones already
    placed. *)
Section StableSort.
Variable A : Type.
Variable cmp : A -> A -> comparison.

Fixpoint sort_insert (x : A) (l : list A) : list A :=
  match l with
  | [] => [x]
  | y :: l' => match cmp y x with Gt => x :: y :: l' | _ => y :: sort_insert x l' end
  end.

Definition js_sort (l : list A) : list A := fold_left (fun acc x => sort_insert x acc) l [].
End StableSort.
Arguments sort_insert {A} cmp x l.
Arguments js_sort {A} cmp l.

(** *** [for (const k in obj)] over the own properties

    The own property keys in the order of OrdinaryOwnPropertyKeys: the
    array indices (canonical decimal strings of the integers below
    [2^32 - 1]) in ascending numeric order, then the other names in
    creation order.  The objects here inherit only non-enumerable
    properties (or, after [obj.__proto__ = file], properties that fail the
    [hasOwnProperty] test of the loops), so the loops that filter with
    [hasOwnProperty] visit exactly these keys. *)
Fixpoint digits_value (acc : Z) (s : jsstr) : option Z :=
  match s with
  | [] => Some acc
  | c :: s' => if (48 <=? c) && (c <=? 57) then digits_value (acc * 10 + (c - 48)) s' else None
  end.

Definition array_index (s : jsstr) : option Z :=
  match s with
  | [] => None
  | [48] => Some 0
  | 48 :: _ => None
  | _ => match digits_value 0 s with
         | Some v => if v <? 4294967295 then Some v else None
         | None => None
         end
  end.

Definition is_array_index (k : jsstr) : bool :=
  match array_index k with Some _ => true | None => false end.

Definition own_keys_order {A} (o : list (jsstr * A)) : list (jsstr * A) :=
  js_sort (fun p q => Z.compare (js_num (array_index (fst p))) (js_num (array_index (fst q))))
    (filter (fun p => is_array_index (fst p)) o)
  ++ filter (fun p => negb (is_array_index (fst p))) o.

Section HostCollation.
Variable localeCompare : jsstr -> jsstr -> comparison.

(** [getFilesArray].  [this.files.hasOwnProperty] is the method inherited
    from [Object.prototype]; a catalog holding a file named
    [hasOwnProperty] shadows it, and the call then throws a [TypeError],
    which this model does not follow. *)
Definition getFilesArray (st : DiskImage) : list DiskFile :=
  js_sort (fun a b => localeCompare (df_name a) (df_name b)) (map snd (own_keys_order (di_files st))).

(** [getSectorsPerAllocationUnit]. *)
Definition getSectorsPerAllocationUnit (st : DiskImage) : Z :=
  let ts := totalSectors (di_geometry st) in
  if num_ltb ts 1600 then 1
  else if num_ltb ts 3200 then 2
  else if num_ltb ts 6400 then 4
  else 8.

(** [getSectorsPerAllocationUnitForDataChainPointers]. *)
Definition getSectorsPerAllocationUnitForDataChainPointers (st : DiskImage) : Z :=
  if num_ltb (totalSectors (di_geometry st)) 4096 then 1 else getSectorsPerAllocationUnit st.

(** [ceilN]: JavaScript's [%] is the truncating remainder. *)
Definition ceilN (n N : Z) : Z :=
  if negb (Z.rem n N =? 0) then n + (N - Z.rem n N) else n.

(** [sectorsToAllocationUnits]. *)
Definition sectorsToAllocationUnits (sectors spau : Z) : Z := ceil_div sectors spau.

(** Modelled from the spec: [DiskFile.restoreState] ("its own state shape
    is the single-file entry's responsibility, opaque to the Disk Image"):
    the snapshot of a file is the file itself. *)
Definition DiskFile_restoreState (fresh : DiskFile) (state : DiskFile) : DiskFile := state.

Record DiskImageState := { s_name : jsstr; s_files : list (jsstr * DiskFile) }.

(** [restoreState]: [state.files] as the list of its own properties. *)
Definition restoreState (st : DiskImage) (state : DiskImageState) : DiskImage :=
  let files := fold_left (fun o p =>
                 obj_set (fst p) (DiskFile_restoreState
                           (newDiskFile (fst p) FileType_DATA RecordType_FIXED 80 DataType_INTERNAL)
                           (snd p)) o) (own_keys_order (s_files state)) [] in
  {| di_name := s_name state; di_files := files; di_geometry := di_geometry st;
     di_binaryImage := di_binaryImage st; di_handler := di_handler st;
     di_events := di_events st |}.

(** Modelled from the spec: [DiskFile.getState], the counterpart of
    [DiskFile_restoreState]: the snapshot of a file is the file itself. *)
Definition DiskFile_getState (f : DiskFile) : DiskFile := f.

(** [getState]: [files[fileName] = this.files[fileName].getState()] for
    each own property, in the order of [for ... in]. *)
Definition getState (st : DiskImage) : DiskImageState :=
  {| s_name := di_name st;
     s_files := fold_left (fun o p => obj_set (fst p) (DiskFile_getState (snd p)) o)
                  (own_keys_order (di_files st)) [] |}.

(** ** Single-file export: [createTIFile] *)

(** The status flags [(recordType << 7) | (dataType << 1) | fileType]. *)
Definition statusFlags (f : DiskFile) : Z :=
  Z.lor (Z.lor (Z.shiftl (df_recordType f) 7) (Z.shiftl (df_dataType f) 1)) (df_fileType f).

(** [recData[j] & 0xFF] for each payload element. *)
Definition payload_bytes (data : list (option Z)) : list Z := map (fun v => js_and v 255) data.

(** [Math.floor(256 / recordLength)]; [None] stands for [Infinity]. *)
Definition recordPerSector_of (rl : Z) : option Z := if rl =? 0 then None else Some (256 / rl).

Definition is_count (rps : option Z) (recCnt : Z) : bool :=
  match rps with Some r => r =? recCnt | None => false end.

(** The FIXED loop of [createTIFile]: records concatenated, the output
    padded to a multiple of 256 after every [recordPerSector] records. *)
Fixpoint ti_fixed_loop (d : list Z) (recCnt : Z) (rps : option Z) (recs : list DiskRecord) : list Z :=
  match recs with
  | [] => d
  | r :: rs =>
      let d1 := d ++ payload_bytes (getData r) in
      let recCnt1 := recCnt + 1 in
      if is_count rps recCnt1
      then ti_fixed_loop (d1 ++ repeat 0 (Z.to_nat ((256 - Z.of_nat (length d1) mod 256) mod 256))) 0 rps rs
      else ti_fixed_loop d1 recCnt1 rps rs
  end.

(** Closing a sector: [0xFF] and zeros until [sectorBytesLeft] is 0. *)
Definition close_sector (sbl : Z) : list Z :=
  if 0 <? sbl then 255 :: repeat 0 (Z.to_nat (sbl - 1)) else [].

(** The VARIABLE loop of [createTIFile]; returns the output and the final
    [sectorBytesLeft]. *)
Fixpoint ti_var_loop (d : list Z) (sbl : Z) (recs : list DiskRecord) : list Z * Z :=
  match recs with
  | [] => (d, sbl)
  | r :: rs =>
      let data := getData r in
      let len := Z.of_nat (length data) in
      let '(d1, sbl1) := if sbl <=? len then (d ++ close_sector sbl, 256) else (d, sbl) in
      ti_var_loop (pushByte d1 len ++ payload_bytes data) (sbl1 - 1 - len) rs
  end.

Definition ti_header (fileName : jsstr) (file : DiskFile) : list Z :=
  let isData := df_fileType file =? FileType_DATA in
  let isVar := df_recordType file =? RecordType_VARIABLE in
  let d := pushByte [] 7 in
  let d := pushString d (js "TIFILES") 7 in
  let d := pushWord d (getSectorCount file) in
  let d := pushByte d (statusFlags file) in
  let d := pushByte d (if isData && (0 <? df_recordLength file)
                       then 256 / (df_recordLength file + (if isVar then 1 else 0)) else 0) in
  let d := pushByte d (getEOFOffset file) in
  let d := pushByte d (df_recordLength file) in
  let d := pushLEWord d (if isData then
                           (if df_recordType file =? RecordType_FIXED
                            then getRecordCount file else getSectorCount file)
                         else 0) in
  let d := pushString d fileName 10 in
  d ++ repeat 0 (128 - length d).

(** [createTIFile]: [None] is [null]; [new Uint8Array(data)] reduces each
    element modulo 256. *)
Definition createTIFile (st : DiskImage) (fileName : jsstr) : option (list Z) :=
  match getFile st fileName with
  | None => None
  | Some file =>
      let d := ti_header fileName file in
      let d :=
        if df_fileType file =? FileType_DATA then
          if df_recordType file =? RecordType_FIXED
          then ti_fixed_loop d 0 (recordPerSector_of (df_recordLength file)) (df_records file)
          else let '(d1, sbl) := ti_var_loop d 256 (df_records file) in d1 ++ close_sector sbl
        else d ++ df_program file in
      Some (map (fun v => v mod 256) d)
  end.

(** ** Disk image encode: [createBinaryImage] *)

Definition zrange (a b : Z) : list Z := map (fun k => a + Z.of_nat k) (seq 0 (Z.to_nat (b - a + 1))).

(** Successive [writeByte] calls. *)
Fixpoint write_bytes (d : u8arr) (n : Z) (bs : list Z) : u8arr * Z :=
  match bs with
  | [] => (d, n)
  | b :: bs' => let '(d1, n1) := writeByte d n b in write_bytes d1 n1 bs'
  end.

(** The FIXED loop: returns the buffer, [sectorNo] and [recCnt]. *)
Fixpoint cbi_fixed_loop (d : u8arr) (n sectorNo recCnt : Z) (rps : option Z)
    (recs : list DiskRecord) : u8arr * Z * Z :=
  match recs with
  | [] => (d, sectorNo, recCnt)
  | r :: rs =>
      let '(d1, n1) := write_bytes d n (payload_bytes (getData r)) in
      let recCnt1 := recCnt + 1 in
      if is_count rps recCnt1
      then cbi_fixed_loop d1 ((sectorNo + 1) * 256) (sectorNo + 1) 0 rps rs
      else cbi_fixed_loop d1 n1 sectorNo recCnt1 rps rs
  end.

(** Closing a sector in the image: [0xFF] then zeros. *)
Definition cbi_close (d : u8arr) (n sbl : Z) : u8arr * Z * Z :=
  if 0 <? sbl
  then let '(d1, n1) := write_bytes d n (255 :: repeat 0 (Z.to_nat (sbl - 1))) in (d1, n1, 0)
  else (d, n, sbl).

(** The VARIABLE loop: returns the buffer, [n], [sectorNo] and
    [sectorBytesLeft]. *)
Fixpoint cbi_var_loop (d : u8arr) (n sectorNo sbl : Z) (recs : list DiskRecord)
    : u8arr * Z * Z * Z :=
  match recs with
  | [] => (d, n, sectorNo, sbl)
  | r :: rs =>
      let data := getData r in
      let len := Z.of_nat (length data) in
      let '(d1, n1, sectorNo1, sbl1) :=
        if sbl <=? len
        then let '(d', _, _) := cbi_close d n sbl in
             (d', (sectorNo + 1) * 256, sectorNo + 1, 256)
        else (d, n, sectorNo, sbl) in
      let '(d2, n2) := writeByte d1 n1 len in
      let '(d3, n3) := write_bytes d2 n2 (payload_bytes data) in
      cbi_var_loop d3 n3 sectorNo1 (sbl1 - 1 - len) rs
  end.

(** The content of one file from sector [startSectorNo]: the buffer and
    the last [sectorNo]. *)
Definition cbi_content (d : u8arr) (file : DiskFile) (startSectorNo : Z) : u8arr * Z :=
  let n := startSectorNo * 256 in
  if df_fileType file =? FileType_DATA then
    if df_recordType file =? RecordType_FIXED then
      let '(d1, sectorNo, recCnt) :=
        cbi_fixed_loop d n startSectorNo 0 (recordPerSector_of (df_recordLength file)) (df_records file) in
      (d1, if recCnt =? 0 then sectorNo - 1 else sectorNo)
    else
      let '(d1, n1, sectorNo, sbl) := cbi_var_loop d n startSectorNo 256 (df_records file) in
      let '(d2, _, sbl2) := cbi_close d1 n1 sbl in
      (d2, if sbl2 =? 256 then sectorNo - 1 else sectorNo)
  else
    let program := df_program file in
    let len := Z.of_nat (length program) in
    let '(d1, _) := write_bytes d n program in
    (d1, startSectorNo + (len / 256 - (if len mod 256 =? 0 then 1 else 0))).

(** [dskImg[0x38 + (i >> 3)] |= 1 << (i & 7)]. *)
Definition mark_au (d : u8arr) (i : Z) : u8arr :=
  u8_or d (56 + Z.shiftr i 3) (Z.shiftl 1 (Z.land i 7)).

(** The body of the per-file loop, for file number [f]; threads the buffer
    and [nextDataSectorNo]. *)
Definition cbi_file (spau spauDCP firstFdrSector : Z) (acc : u8arr * Z) (f : Z) (file : DiskFile)
    : u8arr * Z :=
  let '(d, nextDataSectorNo) := acc in
  let isData := df_fileType file =? FileType_DATA in
  let fdrSectorNo := firstFdrSector + f * spau in
  let '(d, _) := writeWord d (256 + 2 * f) fdrSectorNo in
  let fileDescriptorAddr := fdrSectorNo * 256 in
  let '(d, n) := writeString d fileDescriptorAddr (df_name file) 10 in
  let '(d, n) := writeWord d n 0 in
  let '(d, n) := writeByte d n (statusFlags file) in
  let den := df_recordLength file + (if df_recordType file =? RecordType_VARIABLE then 1 else 0) in
  let '(d, n) := writeByte d n (if isData then (if den =? 0 then 0 else 256 / den) else 0) in
  let '(d, n) := writeWord d n (getSectorCount file) in
  let '(d, n) := writeByte d n (getEOFOffset file) in
  let '(d, n) := writeByte d n (if isData then df_recordLength file else 0) in
  let '(d, _) := writeLEWord d n (if isData then
                                   (if df_recordType file =? RecordType_FIXED
                                    then getRecordCount file else getSectorCount file)
                                 else 0) in
  let startSectorNo := nextDataSectorNo in
  let '(d, sectorNo) := cbi_content d file startSectorNo in
  let nextDataSectorNo := ceilN (sectorNo + 1) spau in
  let au := sectorsToAllocationUnits startSectorNo spauDCP in
  let sectorCount := sectorNo - startSectorNo in
  let n := fileDescriptorAddr + 28 in
  let '(d, n) := writeByte d n (Z.land au 255) in
  let '(d, n) := writeByte d n (Z.lor (Z.shiftl (Z.land sectorCount 15) 4)
                                      (Z.shiftr (Z.land au 3840) 8)) in
  let '(d, _) := writeByte d n (Z.shiftr (Z.land sectorCount 4080) 4) in
  let startAU := sectorsToAllocationUnits startSectorNo spau in
  let endAU := sectorsToAllocationUnits sectorNo spau in
  let d := fold_left mark_au (zrange startAU endAU) d in
  let fdrAU := sectorsToAllocationUnits fdrSectorNo spau in
  (mark_au d fdrAU, nextDataSectorNo).

Fixpoint cbi_files (spau spauDCP firstFdrSector : Z) (acc : u8arr * Z) (f : Z) (files : list DiskFile)
    : u8arr * Z :=
  match files with
  | [] => acc
  | file :: fs => cbi_files spau spauDCP firstFdrSector (cbi_file spau spauDCP firstFdrSector acc f file) (f + 1) fs
  end.

(** The volume information block and the initial allocation bit map.  A
    field that is [NaN] or [undefined] is written as 0 ([NaN & 0xFF]); an
    image of [NaN] sectors has length 0. *)
Definition cbi_volume (st : DiskImage) : u8arr :=
  let g := di_geometry st in
  let sectorsPerAU := getSectorsPerAllocationUnit st in
  let d := u8_new (js_num (totalSectors g) * 256) in
  let '(d, n) := writeString d 0 (di_name st) 10 in
  let '(d, n) := writeWord d n (js_num (totalSectors g)) in
  let '(d, n) := writeByte d n (js_num (sectorsPerTrack g)) in
  let '(d, n) := writeString d n (js "DSK") 3 in
  let '(d, n) := writeByte d n 32 in
  let '(d, n) := writeByte d n (js_num (tracksPerSide g)) in
  let '(d, n) := writeByte d n (js_num (numberOfSides g)) in
  let '(d, _) := writeByte d n (js_num (density g)) in
  let '(d, _) := writeByte d 56 (if sectorsPerAU =? 1 then 3 else 1) in
  fold_left (fun d i => u8_set d i 255) (zrange 236 255) d.

(** [createBinaryImage]. *)
Definition createBinaryImage (st : DiskImage) : u8arr :=
  let sectorsPerAU := getSectorsPerAllocationUnit st in
  let spauDCP := getSectorsPerAllocationUnitForDataChainPointers st in
  let d := cbi_volume st in
  let files := getFilesArray st in
  let fileCount := Z.min (Z.of_nat (length files)) 127 in
  let firstFdrSector := Z.max 2 sectorsPerAU in
  let nextDataSectorNo := ceilN (firstFdrSector + fileCount * sectorsPerAU) sectorsPerAU in
  fst (cbi_files sectorsPerAU spauDCP firstFdrSector (d, nextDataSectorNo) 0
         (firstn (Z.to_nat fileCount) files)).

(** [getBinaryImage]. *)
Definition getBinaryImage (st : DiskImage) : DiskImage * u8arr :=
  match di_binaryImage st with
  | Some b => (st, b)
  | None => let b := createBinaryImage st in (set_binaryImage st (Some b), b)
  end.

(** [readSector]: each cell of [new Uint8Array(256)] receives ToUint8 of
    the image read. *)
Definition readSector (st : DiskImage) (sectorNo : Z) : DiskImage * list Z :=
  let '(st1, tiDiskImage) := getBinaryImage st in
  let sectorOffset := 256 * sectorNo in
  (st1, map (fun i => to_uint8 (u8_get tiDiskImage (sectorOffset + i))) (zrange 0 255)).

End HostCollation.

(** ** Disk image decode: [loadBinaryImage]

    Reads past the end of the buffer are [undefined]; the decoder goes on
    with them as the code does: [undefined << 8] is 0, a sum with
    [undefined] is [NaN], [fileBuffer[NaN]] is [undefined], a comparison
    with [NaN] or [undefined] is false and [x & m] of either is 0. *)

(** Ten name bytes, printable ones kept, then trimmed. *)
Definition read_name (fb : u8arr) (base : Z) : jsstr :=
  js_trim (flat_map (fun i => let v := u8_get fb i in
                              if printable v then [js_num v] else [])
                    (zrange base (base + 9))).

Definition read_bytes (fb : u8arr) (base count : Z) : list (option Z) :=
  map (fun i => u8_get fb (base + i)) (zrange 0 (count - 1)).

(** [(fileBuffer[i] << 8) + fileBuffer[i + 1]]. *)
Definition word_at (fb : u8arr) (i : Z) : option Z :=
  num_add (Some (Z.shiftl (js_num (u8_get fb i)) 8)) (u8_get fb (i + 1)).

(** [fileBuffer[base + k]] for a record address [base] that may be [NaN]
    ([NaN + k] is [NaN], which names no element). *)
Definition u8_at (fb : u8arr) (base : option Z) (k : Z) : option Z :=
  match base with Some b => u8_get fb (b + k) | None => None end.

(** The [while] loop reading the length-prefixed records of one sector;
    [fuel] bounds the iterations (each one uses at least one sector byte). *)
Fixpoint var_sector_loop (fuel : nat) (fb : u8arr) (i sbl : Z) (recordLength : option Z)
    (f : DiskFile) : DiskFile :=
  match fuel with
  | O => f
  | S fuel' =>
      if negb (match recordLength with Some 255 => true | _ => false end) && (0 <? sbl) then
        let k := match recordLength with Some rl => Z.max 0 (Z.min rl sbl) | None => 0 end in
        let f1 := putRecord f (VariableRecord (read_bytes fb i k)) in
        let i1 := i + k in
        let sbl1 := sbl - k in
        if 0 <? sbl1
        then var_sector_loop fuel' fb (i1 + 1) (sbl1 - 1) (u8_get fb i1) f1
        else var_sector_loop fuel' fb i1 sbl1 recordLength f1
      else f
  end.

(** The [for (sector = startSector; sector <= endSector; ...)] loop;
    returns the file, the collected program bytes and [sectorsLeft].
    [recordsPerSector] and [recordLength] are only loop bounds here
    ([i < undefined] is false, as [i < 0] is); [endOfFileOffset] is also
    compared with [===]. *)
Fixpoint run_loop (fb : u8arr) (fileType recordType recordsPerSector recordLength : Z)
    (endOfFileOffset : option Z)
    (sectors : list Z) (f : DiskFile) (program : list (option Z)) (sectorsLeft : Z)
    : DiskFile * list (option Z) * Z :=
  match sectors with
  | [] => (f, program, sectorsLeft)
  | sector :: rest =>
      if fileType =? FileType_DATA then
        if recordType =? RecordType_FIXED then
          let f1 := fold_left (fun f ri =>
                      putRecord f (FixedRecord (read_bytes fb (sector * 256 + ri * recordLength) recordLength)
                                               recordLength))
                      (zrange 0 (recordsPerSector - 1)) f in
          run_loop fb fileType recordType recordsPerSector recordLength endOfFileOffset rest f1 program (sectorsLeft - 1)
        else
          let i := sector * 256 in
          if i <? ulen fb then
            let f1 := var_sector_loop 256 fb (i + 1) 255 (u8_get fb i) f in
            run_loop fb fileType recordType recordsPerSector recordLength endOfFileOffset rest f1 program (sectorsLeft - 1)
          else (f, program, sectorsLeft)
      else
        let program1 :=
          if 0 <? sectorsLeft then
            program ++ read_bytes fb (sector * 256)
                        (if (1 <? sectorsLeft) || ((sectorsLeft =? 1) && num_eqb endOfFileOffset 0)
                         then 256 else js_num endOfFileOffset)
          else program in
        run_loop fb fileType recordType recordsPerSector recordLength endOfFileOffset rest f program1 (sectorsLeft - 1)
  end.

(** The data-chain-pointer loop. *)
Fixpoint dcp_loop (fb : u8arr) (fdr : option Z) (spauDCP fileType recordType recordsPerSector recordLength : Z)
    (endOfFileOffset : option Z)
    (ks : list Z) (f : DiskFile) (program : list (option Z)) (sectorsLeft nLast : Z)
    : DiskFile * list (option Z) :=
  match ks with
  | [] => (f, program)
  | k :: ks' =>
      if 0 <? sectorsLeft then
        let b0 := u8_at fb fdr (28 + 3 * k) in
        let b1 := u8_at fb fdr (28 + 3 * k + 1) in
        let b2 := u8_at fb fdr (28 + 3 * k + 2) in
        let m := Z.lor (Z.shiftl (js_and b1 15) 8) (js_num b0) * spauDCP in
        let n := Z.lor (Z.shiftl (js_num b2) 4) (Z.shiftr (js_and b1 240) 4) in
        if negb (m =? 0) then
          let endSector := m + n - (nLast + 1) in
          let '(f1, program1, sectorsLeft1) :=
            run_loop fb fileType recordType recordsPerSector recordLength endOfFileOffset
                     (zrange m endSector) f program sectorsLeft in
          dcp_loop fb fdr spauDCP fileType recordType recordsPerSector recordLength endOfFileOffset
                   ks' f1 program1 sectorsLeft1 n
        else
          dcp_loop fb fdr spauDCP fileType recordType recordsPerSector recordLength endOfFileOffset
                   ks' f program sectorsLeft nLast
      else (f, program)
  end.

(** One file descriptor record, at sector [fileDescriptorSectorNo] (a
    number, or [NaN]).  An undefined record length is given to the
    [DiskFile] constructor as 0: every use of the record length in
    diskimage.ts (the tests [> 0], the loop bounds, [& 0xFF], and
    [Math.floor(256 / ...)] whose result is only compared with a counter
    or masked with [& 0xFF]) treats [undefined] as it treats 0. *)
Definition decode_fdr (fb : u8arr) (spauDCP : Z) (fileDescriptorSectorNo : option Z) : DiskFile :=
  let fdr := option_map (fun s => s * 256) fileDescriptorSectorNo in
  let fileName := match fdr with Some b => read_name fb b | None => js_trim [] end in
  let statusFlags := u8_at fb fdr 12 in
  let recordType := Z.shiftr (js_and statusFlags 128) 7 in
  let datatype := Z.shiftr (js_and statusFlags 2) 1 in
  let fileType := js_and statusFlags 1 in
  let recordsPerSector := u8_at fb fdr 13 in
  let sectorsAllocated := num_add (Some (Z.shiftl (js_num (u8_at fb fdr 14)) 8)) (u8_at fb fdr 15) in
  let endOfFileOffset := u8_at fb fdr 16 in
  let recordLength := js_num (u8_at fb fdr 17) in
  let diskFile := if fileType =? FileType_DATA
                  then newDiskFile fileName fileType recordType recordLength datatype
                  else newDiskFile fileName fileType 0 0 0 in
  let '(f, program) :=
    match sectorsAllocated with
    | Some sa =>
        dcp_loop fb fdr spauDCP fileType recordType (js_num recordsPerSector) recordLength
                 endOfFileOffset (zrange 0 75) diskFile [] sa (-1)
    | None => (diskFile, [])  (* [NaN > 0] is false: no pointer is read *)
    end in
  if fileType =? FileType_PROGRAM then setProgram f (map to_uint8 program) else f.

(** The sector number in descriptor-index slot [k]: [NaN] when the slot
    reaches past the end of the buffer. *)
Definition fdr_slot (fb : u8arr) (k : Z) : option Z := word_at fb (256 + k * 2).

(** [if (fileDescriptorSectorNo !== 0)]: [NaN !== 0] holds. *)
Definition load_slot (fb : u8arr) (spauDCP : Z) (st : DiskImage) (k : Z) : DiskImage :=
  let fileDescriptorSectorNo := fdr_slot fb k in
  if num_eqb fileDescriptorSectorNo 0 then st
  else putFile st (decode_fdr fb spauDCP fileDescriptorSectorNo).

Definition load_slots (fb : u8arr) (spauDCP : Z) (st : DiskImage) (ks : list Z) : DiskImage :=
  fold_left (load_slot fb spauDCP) ks st.

(** [loadBinaryImage]. *)
Definition loadBinaryImage (st : DiskImage) (fb : u8arr) : DiskImage :=
  let volumeName := read_name fb 0 in
  let total := word_at fb 10 in
  let spauDCP := getSectorsPerAllocationUnitForDataChainPointers st in
  let st1 := load_slots fb spauDCP (set_files st []) (zrange 0 127) in
  {| di_name := volumeName; di_files := di_files st1;
     di_geometry := {| totalSectors := total; sectorsPerTrack := u8_get fb 12;
                       tracksPerSide := u8_get fb 17; numberOfSides := u8_get fb 18;
                       density := u8_get fb 19 |};
     di_binaryImage := Some fb; di_handler := di_handler st1; di_events := di_events st1 |}.

(** ** Single-file import: [loadTIFile]

    [String.prototype.toUpperCase] is the host's Unicode case mapping; it
    is a parameter [toUpperCase] of this part. *)

Section TIFileImport.
Variable toUpperCase : jsstr -> jsstr.

(** The header fields [loadTIFile] derives before reading content. *)
Record TIHeader := {
  h_tiFileName : jsstr;
  h_sectors : Z;
  h_recsPerSector : Z;
  h_eofOffset : Z;
  h_recordLength : Z;
  h_recordType : Z;
  h_datatype : Z;
  h_fileType : Z;
  h_fileLength : Z;
  h_sectorOffset : Z;
  h_pcFormat : bool
}.

Definition byte_at (fb : u8arr) (i : Z) : Z := js_num (u8_get fb i).

(** The printable bytes of [fb[lo..hi]], as [String.fromCharCode]s. *)
Definition printable_units (fb : u8arr) (lo hi : Z) : jsstr :=
  flat_map (fun i => let v := u8_get fb i in if printable v then [js_num v] else []) (zrange lo hi).

(** The loop building a name from [fileName] and the condition the code
    checks besides the character class. *)
Definition name_from (fileName : jsstr) (room : jsstr -> bool) : jsstr :=
  fold_left (fun acc c => if is_fs_char c && room acc then acc ++ [c] else acc) fileName [].

Definition isTIFILES (fb : u8arr) : bool :=
  (byte_at fb 0 =? 7) && jsstr_eqb (map (byte_at fb) (zrange 1 7)) (js "TIFILES").

Definition isV9T9 (fileName : jsstr) (fb : u8arr) : bool :=
  jsstr_eqb (toUpperCase (js_trim (map (byte_at fb) (zrange 0 7))))
            (toUpperCase (js_trim (firstn 8 fileName))).

(** The three branches of format detection. *)
Definition ti_header_of (fileName : jsstr) (fb : u8arr) (ignoreTIFileName : bool) : TIHeader :=
  if isTIFILES fb then
    let embedded :=
      if negb ignoreTIFileName && negb (byte_at fb 16 =? 202)
      then js_trim (printable_units fb 16 25) else [] in
    let tiFileName :=
      if 0 <? Z.of_nat (length embedded) then embedded
      else name_from fileName (fun acc => Z.of_nat (length acc) <? 10) in
    let sectors := Z.lor (Z.shiftl (byte_at fb 8) 8) (byte_at fb 9) in
    let flags := byte_at fb 10 in
    let eofOffset := byte_at fb 12 in
    {| h_tiFileName := tiFileName; h_sectors := sectors; h_recsPerSector := byte_at fb 11;
       h_eofOffset := eofOffset; h_recordLength := byte_at fb 13;
       h_recordType := Z.shiftr (Z.land flags 128) 7; h_datatype := Z.shiftr (Z.land flags 2) 1;
       h_fileType := Z.land flags 1;
       h_fileLength := sectors * 256 - (if 0 <? eofOffset then 256 - eofOffset else 0);
       h_sectorOffset := 128; h_pcFormat := false |}
  else if isV9T9 fileName fb then
    let flags := byte_at fb 12 in
    let sectors := Z.shiftl (byte_at fb 14) 8 + byte_at fb 15 in
    let eofOffset := byte_at fb 16 in
    {| h_tiFileName := js_trim (printable_units fb 0 9); h_sectors := sectors;
       h_recsPerSector := byte_at fb 13; h_eofOffset := eofOffset; h_recordLength := byte_at fb 17;
       h_recordType := Z.shiftr (Z.land flags 128) 7; h_datatype := Z.shiftr (Z.land flags 2) 1;
       h_fileType := Z.land flags 1;
       h_fileLength := sectors * 256 - (if 0 <? eofOffset then 256 - eofOffset else 0);
       h_sectorOffset := 128; h_pcFormat := false |}
  else
    {| h_tiFileName := name_from fileName (fun _ => Z.of_nat (length fileName) <? 10);
       h_sectors := ulen fb / 256; h_recsPerSector := 3; h_eofOffset := 0; h_recordLength := 80;
       h_recordType := RecordType_FIXED; h_datatype := DataType_DISPLAY; h_fileType := FileType_DATA;
       h_fileLength := ulen fb; h_sectorOffset := 0; h_pcFormat := true |}.

(** The fallback FIXED loop over the whole buffer; [fuel] bounds the
    iterations (each one advances [i]). *)
Fixpoint pc_loop (fuel : nat) (fb : u8arr) (recordLength i : Z) (data : list (option Z))
    (f : DiskFile) : DiskFile :=
  match fuel with
  | O => if 0 <? Z.of_nat (length data) then putRecord f (FixedRecord data recordLength) else f
  | S fuel' =>
      if i <? ulen fb then
        let data1 := data ++ [u8_get fb i] in
        let i1 := i + 1 in
        if Z.of_nat (length data1) =? recordLength then
          let f1 := putRecord f (FixedRecord data1 recordLength) in
          let skip := match u8_get fb i1, u8_get fb (i1 + 1) with
                      | Some 13, _ => true | _, Some 10 => true | _, _ => false end in
          pc_loop fuel' fb recordLength (if skip then i1 + 2 else i1) [] f1
        else pc_loop fuel' fb recordLength i1 data1 f
      else if 0 <? Z.of_nat (length data) then putRecord f (FixedRecord data recordLength) else f
  end.

(** The content of a DATA file. *)
Definition ti_data_file (fb : u8arr) (h : TIHeader) : DiskFile :=
  let file := newDiskFile (h_tiFileName h) (h_fileType h) (h_recordType h) (h_recordLength h) (h_datatype h) in
  let rl := h_recordLength h in
  let off := h_sectorOffset h in
  if h_recordType h =? RecordType_FIXED then
    if negb (h_pcFormat h) then
      fold_left (fun f sector =>
        fold_left (fun f rec =>
          if sector * 256 + rec * rl <? h_fileLength h
          then putRecord f (FixedRecord (read_bytes fb (off + sector * 256 + rec * rl) rl) rl)
          else f) (zrange 0 (h_recsPerSector h - 1)) f) (zrange 0 (h_sectors h - 1)) file
    else pc_loop (Z.to_nat (ulen fb) + 1) fb rl 0 [] file
  else
    fold_left (fun f sector =>
      let i := off + sector * 256 in
      var_sector_loop 256 fb (i + 1) 255 (u8_get fb i) f) (zrange 0 (h_sectors h - 1)) file.

(** [loadTIFile]: [Some (result, state)] when it returns ([result = None]
    for [null]); [None] when [new Uint8Array(fileLength)] throws a
    [RangeError] (a PROGRAM file with a negative content length). *)
Definition loadTIFile (st : DiskImage) (fileName : jsstr) (fb : u8arr) (ignoreTIFileName : bool)
    : option (option DiskFile * DiskImage) :=
  if 128 <? ulen fb then
    let h := ti_header_of fileName fb ignoreTIFileName in
    if h_sectorOffset h + h_fileLength h <=? ulen fb then
      if h_fileType h =? FileType_DATA then
        let file := ti_data_file fb h in
        Some (Some file, putFile st file)
      else if h_fileLength h <? 0 then None
      else
        let file := setProgram (newDiskFile (h_tiFileName h) (h_fileType h) 0 0 0)
                      (map to_uint8 (read_bytes fb (h_sectorOffset h) (h_fileLength h))) in
        Some (Some file, putFile st file)
    else Some (None, st)
  else Some (None, st).

End TIFileImport.

(** ** Concrete inputs *)

(** [String.prototype.toUpperCase] on strings of ASCII code units. *)
Definition ascii_toUpperCase (s : jsstr) : jsstr :=
  map (fun c => if (97 <=? c) && (c <=? 122) then c - 32 else c) s.

Definition fixedRec80 (b : Z) : DiskRecord := FixedRecord (repeat (Some b) 80) 80.

(** The example of the spec: a FIXED DATA file [TEST], record length 80,
    four records, on the default 1440-sector geometry. *)
Definition exampleFile : DiskFile :=
  {| df_name := js "TEST"; df_fileType := FileType_DATA; df_recordType := RecordType_FIXED;
     df_recordLength := 80; df_dataType := DataType_DISPLAY;
     df_records := [fixedRec80 1; fixedRec80 2; fixedRec80 3; fixedRec80 4]; df_program := [] |}.

Definition exampleImage : DiskImage := putFile (newDiskImage (js "DISK") true) exampleFile.

(** A two-sector image with an empty catalog and a blank volume name. *)
Definition blankTwoSectorBuffer : u8arr := u8_set (u8_new 512) 11 2.

(** A VARIABLE file whose two 127-byte records fill one sector exactly. *)
Definition varFile127 : DiskFile :=
  {| df_name := js "VARS"; df_fileType := FileType_DATA; df_recordType := RecordType_VARIABLE;
     df_recordLength := 254; df_dataType := DataType_DISPLAY;
     df_records := [VariableRecord (repeat (Some 65) 127); VariableRecord (repeat (Some 65) 127)];
     df_program := [] |}.

Definition varImage127 : DiskImage := putFile (newDiskImage (js "DISK") false) varFile127.

(** A VARIABLE file holding one 255-byte record. *)
Definition varFile255 : DiskFile :=
  {| df_name := js "V255"; df_fileType := FileType_DATA; df_recordType := RecordType_VARIABLE;
     df_recordLength := 255; df_dataType := DataType_DISPLAY;
     df_records := [VariableRecord (repeat (Some 66) 255)]; df_program := [] |}.

Definition varImage255 : DiskImage := putFile (newDiskImage (js "DISK") false) varFile255.

Definition namedFile (name : jsstr) : DiskFile :=
  {| df_name := name; df_fileType := FileType_DATA; df_recordType := RecordType_FIXED;
     df_recordLength := 80; df_dataType := DataType_DISPLAY; df_records := []; df_program := [] |}.

(** A catalog holding [B] and [a]. *)
Definition caseCatalog : DiskImage :=
  putFile (putFile (newDiskImage (js "DISK") false) (namedFile (js "B"))) (namedFile (js "a")).

(** A 129-byte buffer of zeros (no signature of either container format). *)
Definition zeroBuffer129 : u8arr := u8_new 129.

(** A tagged-archive header declaring two sectors, in a 200-byte buffer. *)
Definition shortTIFILES : u8arr :=
  u8_fill (u8_new 200) 0 [7; 84; 73; 70; 73; 76; 69; 83; 0; 2; 0; 3; 0; 80].

(** The claim's ordering: case-sensitive lexicographic (code-unit) order. *)
Definition codeunit_sorted (names : list jsstr) : Prop :=
  Sorted (fun a b => lex_compare a b <> Gt) names.

(** Byte-for-byte equality of two [Uint8Array]s. *)
Definition buf_equiv (a b : u8arr) : Prop :=
  ulen a = ulen b /\ forall i, u8_get a i = u8_get b i.

(** The cache invariant of the spec, under the host collation
    [localeCompare]. *)
Definition cache_consistent (localeCompare : jsstr -> jsstr -> comparison) (st : DiskImage) : Prop :=
  match di_binaryImage st with
  | Some b => buf_equiv b (createBinaryImage localeCompare st)
  | None => True
  end.

(** "Closes with a 0xFF terminator followed by zero padding". *)
Definition ends_with_terminator (out : list Z) : Prop :=
  exists pre k, out = pre ++ 255 :: repeat 0 k.

(** A descriptor-index slot passes [fileDescriptorSectorNo !== 0]: its
    sector number is not 0, or it is [NaN] (the slot reaches past the end
    of the buffer). *)
Definition slot_nonzero (fb : u8arr) (k : Z) : bool :=
  negb (num_eqb (fdr_slot fb k) 0).

(** The number of nonzero descriptor-index slots of an image. *)
Definition nonzero_slots (fb : u8arr) : nat :=
  length (filter (slot_nonzero fb) (zrange 0 127)).

(** The VARIABLE record stream both packers emit. *)
Definition var_stream (recs : list DiskRecord) : list Z :=
  let '(body, k) := ti_var_loop [] 256 recs in body ++ close_sector k.

(** Two buffers of the same length that agree below offset [m]. *)
Definition same_below (m : Z) (a b : u8arr) : Prop :=
  ulen b = ulen a /\ forall j, j < m -> u8_get b j = u8_get a j.

(** [b] grows from [a] in the first sector only by setting bits at
    offsets [0x38..0xFF] (the allocation bit map); the volume information
    block below [0x38] is unchanged. *)
Definition low_rel (i : Z) (x y : option Z) : Prop :=
  if i <? 56 then y = x
  else match x, y with
       | Some a, Some b => Z.land a b = a
       | None, None => True
       | _, _ => False
       end.

Definition low_grow (a b : u8arr) : Prop :=
  ulen b = ulen a /\ forall i, i < 256 -> low_rel i (u8_get a i) (u8_get b i).

(** A three-byte program file on a single-sided image. *)
Definition programFile : DiskFile :=
  {| df_name := js "PROG"; df_fileType := FileType_PROGRAM; df_recordType := 0;
     df_recordLength := 0; df_dataType := 0; df_records := []; df_program := [1; 2; 3] |}.

Definition programImage : DiskImage := putFile (newDiskImage (js "DISK") false) programFile.

(** The first twenty bytes [createBinaryImage] writes, in order. *)
Definition vib_units (st : DiskImage) : jsstr :=
  let g := di_geometry st in
  (firstn 10 (di_name st) ++ repeat 32 (10 - length (di_name st)))
  ++ [Z.shiftr (Z.land (js_num (totalSectors g)) 65280) 8; Z.land (js_num (totalSectors g)) 255]
  ++ [Z.land (js_num (sectorsPerTrack g)) 255] ++ js "DSK"
  ++ [Z.land 32 255; Z.land (js_num (tracksPerSide g)) 255; Z.land (js_num (numberOfSides g)) 255;
      Z.land (js_num (density g)) 255].

(** Bytes 10 to 19 of the encoded image. *)
Definition vib_tail (st : DiskImage) : list Z :=
  let g := di_geometry st in
  [Z.shiftr (Z.land (js_num (totalSectors g)) 65280) 8; Z.land (js_num (totalSectors g)) 255;
   Z.land (js_num (sectorsPerTrack g)) 255; 68; 83; 75; Z.land 32 255;
   Z.land (js_num (tracksPerSide g)) 255; Z.land (js_num (numberOfSides g)) 255;
   Z.land (js_num (density g)) 255].

(** The code unit kept for one name byte read back by [read_name]. *)
Definition keep_printable (c : Z) : list Z :=
  if (32 <=? c mod 256) && (c mod 256 <? 128) then [c mod 256] else [].

(** * Properties *)

Section Verification.
Variable localeCompare : jsstr -> jsstr -> comparison.

(** ** C5 *)

(** C5: the storage allocation-unit size is 1 below 1600 total sectors, 2
    below 3200, 4 below 6400 and 8 otherwise; the allocation-unit size of
    data chain pointers is 1 below 4096 total sectors and the storage one
    otherwise.  A sector count that is [NaN] (loaded from a buffer too
    short to hold it) fails every comparison: both sizes are then 8. *)
Theorem allocation_unit_sizes (st : DiskImage) :
  match totalSectors (di_geometry st) with
  | Some ts =>
      (ts < 1600 /\ getSectorsPerAllocationUnit st = 1
       \/ 1600 <= ts < 3200 /\ getSectorsPerAllocationUnit st = 2
       \/ 3200 <= ts < 6400 /\ getSectorsPerAllocationUnit st = 4
       \/ 6400 <= ts /\ getSectorsPerAllocationUnit st = 8)
      /\ (ts < 4096 /\ getSectorsPerAllocationUnitForDataChainPointers st = 1
          \/ 4096 <= ts /\ getSectorsPerAllocationUnitForDataChainPointers st = getSectorsPerAllocationUnit st)
  | None =>
      getSectorsPerAllocationUnit st = 8 /\ getSectorsPerAllocationUnitForDataChainPointers st = 8
  end.
Proof.
  unfold getSectorsPerAllocationUnitForDataChainPointers, getSectorsPerAllocationUnit; cbn zeta.
  destruct (totalSectors (di_geometry st)) as [ts|]; cbn [num_ltb]; [|split; reflexivity].
  split.
  - destruct (Z.ltb_spec ts 1600); [left; split; auto|].
    destruct (Z.ltb_spec ts 3200); [right; left; split; auto; lia|].
    destruct (Z.ltb_spec ts 6400); [right; right; left; split; auto; lia|].
    right; right; right; split; auto; lia.
  - destruct (Z.ltb_spec ts 4096); [left; split; auto | right; split; auto; lia].
Qed.

(** ** C10 *)

Lemma nth_map_d {A B} (f : A -> B) (l : list A) (i : nat) (d : B) (da : A) :
  (i < length l)%nat -> nth i (map f l) d = f (nth i l da).
Proof.
  intros Hi. rewrite nth_indep with (d' := f da) by (rewrite length_map; exact Hi).
  apply map_nth.
Qed.

Lemma zrange_length (a b : Z) : length (zrange a b) = Z.to_nat (b - a + 1).
Proof. unfold zrange. rewrite length_map, length_seq. reflexivity. Qed.

Lemma zrange_nth (a b : Z) (i : nat) (d : Z) :
  (i < Z.to_nat (b - a + 1))%nat -> nth i (zrange a b) d = a + Z.of_nat i.
Proof.
  intros Hi. unfold zrange.
  rewrite (nth_map_d _ _ _ _ 0%nat) by (rewrite length_seq; exact Hi).
  rewrite seq_nth by exact Hi. reflexivity.
Qed.

(** C10: [readSector n] returns exactly 256 bytes for every [n]; each is
    the byte of the current image at [256 * n + i], and 0 where that
    position is outside the image. *)
Theorem readSector_full_sector (st : DiskImage) (n : Z) :
  let img := snd (getBinaryImage localeCompare st) in
  let bytes := snd (readSector localeCompare st n) in
  length bytes = 256%nat /\
  forall i : nat, (i < 256)%nat ->
    nth i bytes 0 = match u8_get img (256 * n + Z.of_nat i) with Some v => v | None => 0 end.
Proof.
  cbn zeta. unfold readSector.
  destruct (getBinaryImage localeCompare st) as [st1 img]. cbn [snd].
  split.
  - rewrite length_map, zrange_length. reflexivity.
  - intros i Hi.
    rewrite (nth_map_d _ _ _ _ 0) by (rewrite zrange_length; exact Hi).
    rewrite zrange_nth by exact Hi.
    unfold to_uint8, u8_get. destruct (in_bounds img (256 * n + (0 + Z.of_nat i))) eqn:Hb;
      replace (256 * n + (0 + Z.of_nat i)) with (256 * n + Z.of_nat i) in * by lia;
      rewrite Hb; [apply Z.mod_mod; lia | reflexivity].
Qed.

(** ** C1 *)

(** C1 (failing input, the spec's own example): encoding the image whose
    catalog holds [TEST] (FIXED, record length 80, four records) and
    decoding it with [loadBinaryImage] gives a [TEST] with six records:
    the decoder reads all three record slots of the file's second sector
    (under every host collation: the catalog holds one file). *)
Theorem fixed_roundtrip_pads_records :
  length (df_records exampleFile) = 4%nat /\
  map (fun p => (fst p, length (df_records (snd p)), map getData (df_records (snd p))))
    (di_files (loadBinaryImage exampleImage (createBinaryImage localeCompare exampleImage)))
  = [(js "TEST", 6%nat, map getData (df_records exampleFile) ++ [repeat (Some 0) 80; repeat (Some 0) 80])].
Proof. split; [reflexivity | vm_compute; reflexivity]. Qed.

(** ** C3 *)

(** C3 (counterexample): with files [B] and [a], under a host collation
    that puts [a] before [B] (the ICU root collation does, as
    [root_localeCompare] does), [getFilesArray] returns [a] before [B],
    which is not the case-sensitive code-unit order ([B] is 66, [a] is
    97). *)
Lemma getFilesArray_not_codeunit_order :
  map df_name (getFilesArray root_localeCompare caseCatalog) = [js "a"; js "B"] /\
  ~ codeunit_sorted (map df_name (getFilesArray root_localeCompare caseCatalog)).
Proof.
  assert (E : map df_name (getFilesArray root_localeCompare caseCatalog) = [js "a"; js "B"])
    by (vm_compute; reflexivity).
  split; [exact E|]. rewrite E. intro H.
  inversion H as [|x l Hs Hh]; subst.
  inversion Hh as [|y l' R]; subst. apply R. vm_compute. reflexivity.
Qed.

(** ** C4 *)

(** C4 (counterexample): loading an image that holds one file into a disk
    image with an event handler emits a [fileAdded] event. *)
Lemma loadBinaryImage_fires_fileAdded :
  di_events (loadBinaryImage exampleImage (createBinaryImage root_localeCompare exampleImage))
  = di_events exampleImage ++ [{| ev_type := "fileAdded"; ev_name := js "TEST" |}].
Proof. vm_compute. reflexivity. Qed.

(** ** C2 *)

(** C2 (counterexample): after [loadBinaryImage] of a blank two-sector
    image the cache holds the input buffer, whose volume name bytes are 0,
    while [createBinaryImage] of the loaded state pads the empty name with
    spaces: the cached image is not what the encoder would produce. *)
Lemma loadBinaryImage_cache_not_encoding :
  ~ cache_consistent root_localeCompare (loadBinaryImage (newDiskImage (js "DISK") false) blankTwoSectorBuffer).
Proof.
  unfold cache_consistent. cbn [di_binaryImage loadBinaryImage].
  intros [_ H]. specialize (H 0). vm_compute in H. discriminate H.
Qed.

(** ** C6 *)

Lemma repeat_snoc {A} (x : A) (k : nat) : repeat x (S k) = repeat x k ++ [x].
Proof. induction k as [|k IH]; [reflexivity|]. change (x :: repeat x (S k) = x :: repeat x k ++ [x]). rewrite IH. reflexivity. Qed.

Lemma last_terminator (pre : list Z) (k : nat) :
  last (pre ++ 255 :: repeat 0 k) 0 = match k with O => 255 | S _ => 0 end.
Proof.
  destruct k as [|k].
  - apply last_last.
  - rewrite repeat_snoc, app_comm_cons, app_assoc. apply last_last.
Qed.

(** C6 (counterexample): two 127-byte VARIABLE records fill the first
    sector exactly (2 * (1 + 127) = 256); [createTIFile] then writes no
    [0xFF] terminator: the export ends with the last payload byte. *)
Lemma var_export_exact_fill_no_terminator :
  exists out, createTIFile varImage127 (js "VARS") = Some out /\
              length out = 384%nat /\ ~ ends_with_terminator out.
Proof.
  eexists; split; [vm_compute; reflexivity|]. split; [reflexivity|].
  intros [pre [k E]].
  match type of E with ?o = _ =>
    assert (L : last o 0 = 65) by (vm_compute; reflexivity) end.
  rewrite E, last_terminator in L. destruct k; discriminate L.
Qed.

(** ** C7 *)

(** C7 (counterexample): a file with one 255-byte VARIABLE record is
    exported with the length byte [0xFF] at offset 128, followed by the
    record's 255 bytes; importing that export back reads the [0xFF] as the
    sector terminator and yields no record. *)
Lemma var_export_255_length_byte :
  exists out, createTIFile varImage255 (js "V255") = Some out /\
    nth 128 out 0 = 255 /\ firstn 255 (skipn 129 out) = repeat 66 255 /\
    option_map (fun r => option_map (fun f => length (df_records f)) (fst r))
      (loadTIFile ascii_toUpperCase (newDiskImage (js "DISK") false) (js "V255") (u8_of_list out) false)
    = Some (Some 0%nat).
Proof. eexists; split; [vm_compute; reflexivity|]. vm_compute. repeat split. Qed.

(** ** C8 *)

(** C8: a buffer of at most 128 bytes, or one shorter than the content
    offset plus the content length its header declares, is rejected:
    [loadTIFile] returns [null] and leaves the disk image (catalog, cache
    and events) unchanged. *)
Theorem loadTIFile_short_rejected (toUpperCase : jsstr -> jsstr) (st : DiskImage)
    (fileName : jsstr) (fb : u8arr) (ignoreTIFileName : bool) :
  let h := ti_header_of toUpperCase fileName fb ignoreTIFileName in
  ulen fb <= 128 \/ ulen fb < h_sectorOffset h + h_fileLength h ->
  loadTIFile toUpperCase st fileName fb ignoreTIFileName = Some (None, st).
Proof.
  cbn zeta. intros Hshort. unfold loadTIFile.
  destruct (Z.ltb_spec 128 (ulen fb)) as [Hlen|Hlen]; [|reflexivity].
  destruct Hshort as [Hs|Hs]; [lia|].
  destruct (Z.leb_spec (h_sectorOffset (ti_header_of toUpperCase fileName fb ignoreTIFileName)
                        + h_fileLength (ti_header_of toUpperCase fileName fb ignoreTIFileName)) (ulen fb));
    [lia | reflexivity].
Qed.

Lemma loadTIFile_short_rejected_witness :
  loadTIFile ascii_toUpperCase (newDiskImage (js "DISK") false) (js "FILE1") shortTIFILES false
  = Some (None, newDiskImage (js "DISK") false).
Proof.
  apply (loadTIFile_short_rejected ascii_toUpperCase (newDiskImage (js "DISK") false)
           (js "FILE1") shortTIFILES false).
  right. vm_compute. reflexivity.
Defined.

(** ** C9 *)

(** C9 (failing input): importing a 129-byte zero buffer (neither
    signature matches) under the name [MYPROGRAM1], ten characters of the
    file-system charset, creates an entry whose name is empty instead of
    [MYPROGRAM1]: the fallback tests [fileName.length < 10] where the
    tagged-archive branch tests [tiFileName.length < 10]. *)
Theorem fallback_name_dropped :
  firstn 10 (filter is_fs_char (js "MYPROGRAM1")) = js "MYPROGRAM1" /\
  option_map (fun r => option_map df_name (fst r))
    (loadTIFile ascii_toUpperCase (newDiskImage (js "DISK") false) (js "MYPROGRAM1") zeroBuffer129 false)
  = Some (Some []).
Proof. split; vm_compute; reflexivity. Qed.

(** ** C3 *)

Lemma lex_compare_antisym (a b : list Z) : lex_compare a b = CompOpp (lex_compare b a).
Proof.
  revert b; induction a as [|x a IH]; intros [|y b]; try reflexivity.
  cbn [lex_compare]. destruct (Z.compare_spec x y) as [H|H|H].
  - subst. rewrite Z.compare_refl. apply IH.
  - rewrite (proj2 (Z.compare_gt_iff y x) H). reflexivity.
  - rewrite (proj2 (Z.compare_lt_iff y x) H). reflexivity.
Qed.

Lemma root_localeCompare_antisym (a b : jsstr) :
  root_localeCompare a b = CompOpp (root_localeCompare b a).
Proof.
  unfold root_localeCompare.
  rewrite (lex_compare_antisym (map collation_primary a)).
  destruct (lex_compare (map collation_primary b) (map collation_primary a)); cbn [CompOpp];
    [apply lex_compare_antisym | reflexivity | reflexivity].
Qed.

Section SortProperties.
Variable A : Type.
Variable cmp : A -> A -> comparison.
Hypothesis cmp_antisym : forall x y, cmp x y = CompOpp (cmp y x).

Let le x y := cmp x y <> Gt.

Lemma sort_insert_perm (x : A) (l : list A) : Permutation (sort_insert cmp x l) (x :: l).
Proof.
  induction l as [|y l IH]; cbn [sort_insert]; [reflexivity|].
  destruct (cmp y x); try reflexivity;
    (rewrite IH; apply perm_swap).
Qed.

Lemma sort_insert_hd (x y : A) (l : list A) :
  le y x -> HdRel le y l -> HdRel le y (sort_insert cmp x l).
Proof.
  intros Hyx Hl. destruct l as [|z l]; cbn [sort_insert]; [constructor; exact Hyx|].
  inversion Hl; subst.
  destruct (cmp z x); constructor; assumption.
Qed.

Lemma sort_insert_sorted (x : A) (l : list A) : Sorted le l -> Sorted le (sort_insert cmp x l).
Proof.
  induction l as [|y l IH]; intros Hs; cbn [sort_insert].
  - constructor; constructor.
  - inversion Hs as [|? ? Hl Hh]; subst.
    destruct (cmp y x) eqn:E.
    + constructor; [apply IH; exact Hl|]. apply sort_insert_hd; [unfold le; rewrite E; discriminate | exact Hh].
    + constructor; [apply IH; exact Hl|]. apply sort_insert_hd; [unfold le; rewrite E; discriminate | exact Hh].
    + constructor; [exact Hs|]. constructor. unfold le. rewrite cmp_antisym, E. discriminate.
Qed.

Lemma js_sort_fold (l acc : list A) :
  Sorted le acc ->
  Permutation (fold_left (fun acc x => sort_insert cmp x acc) l acc) (l ++ acc)
  /\ Sorted le (fold_left (fun acc x => sort_insert cmp x acc) l acc).
Proof.
  revert acc; induction l as [|x l IH]; intros acc Hs; cbn [fold_left app]; [split; [reflexivity | exact Hs]|].
  destruct (IH (sort_insert cmp x acc) (sort_insert_sorted x acc Hs)) as [Hp Hs'].
  split; [|exact Hs'].
  rewrite Hp, sort_insert_perm. symmetry. apply Permutation_middle.
Qed.

Lemma js_sort_spec (l : list A) : Permutation (js_sort cmp l) l /\ Sorted le (js_sort cmp l).
Proof.
  unfold js_sort. destruct (js_sort_fold l [] (Sorted_nil _)) as [Hp Hs].
  rewrite app_nil_r in Hp. split; assumption.
Qed.
End SortProperties.

Lemma filter_split_perm {A} (f : A -> bool) (l : list A) :
  Permutation (filter f l ++ filter (fun x => negb (f x)) l) l.
Proof.
  induction l as [|x l IH]; cbn [filter]; [reflexivity|].
  destruct (f x); cbn [negb app].
  - constructor. exact IH.
  - rewrite <- Permutation_middle. constructor. exact IH.
Qed.

Lemma own_keys_order_perm {A} (o : list (jsstr * A)) : Permutation (own_keys_order o) o.
Proof.
  unfold own_keys_order.
  rewrite (proj1 (js_sort_spec _ _ (fun p q => Z.compare_antisym _ _) _)).
  apply filter_split_perm.
Qed.

(** C3 (amended): when the host's [localeCompare] is a consistent
    comparator (antisymmetric, as ECMAScript requires of a sort comparator)
    and no file is named [hasOwnProperty], [getFilesArray] returns exactly
    the catalog's own entries, each adjacent pair ordered by
    [localeCompare] of the names; being a function of the catalog, two
    calls on the same catalog give the same order. *)
Theorem getFilesArray_locale_sorted (st : DiskImage)
  (Hcmp : forall a b, localeCompare a b = CompOpp (localeCompare b a))
  (Hown : ~ In (js "hasOwnProperty") (map fst (di_files st))) :
  Permutation (getFilesArray localeCompare st) (map snd (di_files st)) /\
  Sorted (fun a b => localeCompare (df_name a) (df_name b) <> Gt) (getFilesArray localeCompare st).
Proof.
  unfold getFilesArray.
  destruct (js_sort_spec DiskFile (fun a b => localeCompare (df_name a) (df_name b))
              (fun x y => Hcmp (df_name x) (df_name y)) (map snd (own_keys_order (di_files st))))
    as [Hp Hs].
  split; [|exact Hs].
  rewrite Hp. apply Permutation_map, own_keys_order_perm.
Qed.

(** ** C4 *)

Lemma putFile_handler (st : DiskImage) (f : DiskFile) : di_handler (putFile st f) = di_handler st.
Proof.
  unfold putFile, fireEvent, invalidateBinaryImage, set_binaryImage, set_files. cbn.
  destruct (di_handler st); reflexivity.
Qed.

Lemma putFile_events (st : DiskImage) (f : DiskFile) :
  di_events (putFile st f)
  = di_events st ++ (if di_handler st then [{| ev_type := "fileAdded"; ev_name := df_name f |}] else []).
Proof.
  unfold putFile, fireEvent, invalidateBinaryImage, set_binaryImage, set_files. cbn.
  destruct (di_handler st); cbn; [reflexivity | symmetry; apply app_nil_r].
Qed.

Lemma load_slots_events (fb : u8arr) (spauDCP : Z) (ks : list Z) :
  forall st,
  di_handler (load_slots fb spauDCP st ks) = di_handler st /\
  exists evs, di_events (load_slots fb spauDCP st ks) = di_events st ++ evs /\
    Forall (fun e => ev_type e = "fileAdded"%string) evs /\
    length evs = (if di_handler st then length (filter (slot_nonzero fb) ks) else 0%nat).
Proof.
  unfold load_slots.
  induction ks as [|k ks IH]; intros st; cbn [fold_left].
  - split; [reflexivity|]. exists []. rewrite app_nil_r.
    split; [reflexivity|]. split; [constructor|]. destruct (di_handler st); reflexivity.
  - cbn [filter]. unfold slot_nonzero at 1.
    destruct (num_eqb (fdr_slot fb k) 0) eqn:E; cbn [negb].
    + assert (Ls : load_slot fb spauDCP st k = st) by (unfold load_slot; rewrite E; reflexivity).
      rewrite Ls. apply IH.
    + assert (Ls : load_slot fb spauDCP st k = putFile st (decode_fdr fb spauDCP (fdr_slot fb k)))
        by (unfold load_slot; rewrite E; reflexivity).
      rewrite Ls.
      destruct (IH (putFile st (decode_fdr fb spauDCP (fdr_slot fb k)))) as [Hh [evs [He [Hf Hl]]]].
      rewrite putFile_handler in Hh, Hl. rewrite putFile_events in He.
      split; [exact Hh|].
      exists ((if di_handler st
               then [{| ev_type := "fileAdded"; ev_name := df_name (decode_fdr fb spauDCP (fdr_slot fb k)) |}]
               else []) ++ evs).
      rewrite He, app_assoc. split; [reflexivity|].
      destruct (di_handler st); cbn [app length].
      * split; [constructor; [reflexivity | exact Hf] | rewrite Hl; reflexivity].
      * split; [exact Hf | exact Hl].
Qed.

(** C4 (amended): [loadBinaryImage] inserts every decoded entry through
    [putFile], for every input buffer: when an event handler is set it
    emits exactly one [fileAdded] event per descriptor-index slot that
    passes [fileDescriptorSectorNo !== 0] (a slot reaching past the end of
    the buffer reads as [NaN] and passes), and no other event; without a
    handler no event is recorded. *)
Theorem loadBinaryImage_events (st : DiskImage) (fb : u8arr) :
  exists evs, di_events (loadBinaryImage st fb) = di_events st ++ evs /\
    Forall (fun e => ev_type e = "fileAdded"%string) evs /\
    length evs = (if di_handler st then nonzero_slots fb else 0%nat).
Proof.
  unfold loadBinaryImage, nonzero_slots. generalize (zrange 0 127). intros ks. cbn [di_events].
  destruct (load_slots_events fb (getSectorsPerAllocationUnitForDataChainPointers st)
              ks (set_files st [])) as [_ [evs [He [Hf Hl]]]].
  exists evs. rewrite He. split; [reflexivity|]. split; [exact Hf|]. exact Hl.
Qed.

(** A 260-byte buffer of zeros: the descriptor-index slots 2 to 127 reach
    past its end, read as [NaN] and pass the [!== 0] test, so each of them
    adds an entry and fires [fileAdded]. *)
Lemma loadBinaryImage_short_buffer_events :
  nonzero_slots (u8_new 260) = 126%nat /\
  length (di_events (loadBinaryImage exampleImage (u8_new 260)))
  = (length (di_events exampleImage) + 126)%nat.
Proof. split; vm_compute; reflexivity. Qed.

(** ** C2 *)

Lemma createBinaryImage_fields (a b : DiskImage) :
  di_name a = di_name b -> di_files a = di_files b -> di_geometry a = di_geometry b ->
  createBinaryImage localeCompare a = createBinaryImage localeCompare b.
Proof.
  intros Hn Hf Hg.
  unfold createBinaryImage, cbi_volume, getFilesArray, getSectorsPerAllocationUnitForDataChainPointers,
    getSectorsPerAllocationUnit.
  rewrite Hn, Hf, Hg. reflexivity.
Qed.

Lemma buf_equiv_refl (a : u8arr) : buf_equiv a a.
Proof. split; reflexivity. Qed.

Lemma fireEvent_binaryImage (st : DiskImage) (ev : DiskImageEvent) :
  di_binaryImage (fireEvent st ev) = di_binaryImage st.
Proof. unfold fireEvent. destruct (di_handler st); reflexivity. Qed.

Lemma getBinaryImage_consistent (st : DiskImage) :
  cache_consistent localeCompare st ->
  cache_consistent localeCompare (fst (getBinaryImage localeCompare st)) /\ buf_equiv (snd (getBinaryImage localeCompare st)) (createBinaryImage localeCompare st).
Proof.
  unfold cache_consistent, getBinaryImage. intros H.
  destruct (di_binaryImage st) as [b|] eqn:E.
  - cbn [fst snd]. rewrite E. split; exact H.
  - cbn [fst snd di_binaryImage set_binaryImage]. split; [|apply buf_equiv_refl].
    rewrite (createBinaryImage_fields (set_binaryImage st (Some (createBinaryImage localeCompare st))) st)
      by reflexivity.
    apply buf_equiv_refl.
Qed.

Lemma putFile_cache (st : DiskImage) (f : DiskFile) : di_binaryImage (putFile st f) = None.
Proof. unfold putFile. rewrite fireEvent_binaryImage. reflexivity. Qed.

(** C2 (amended): [putFile] and [deleteFile] change the catalog and clear
    the cache before the notification fires; [getBinaryImage] (and so
    [readSector]) fills an absent cache with [createBinaryImage] of the
    current state and returns what it caches; these operations and
    [loadTIFile] keep a consistent cache consistent.  [loadBinaryImage]
    instead caches the input buffer itself, whatever the buffer holds
    (short or malformed buffers included). *)
Theorem cache_discipline :
  (forall st f, exists st1,
      putFile st f = fireEvent st1 {| ev_type := "fileAdded"; ev_name := df_name f |} /\
      di_binaryImage st1 = None /\ di_files st1 = obj_set (df_name f) f (di_files st)) /\
  (forall st fileName, exists st1,
      deleteFile st fileName = fireEvent st1 {| ev_type := "fileDeleted"; ev_name := fileName |} /\
      di_binaryImage st1 = None /\ di_files st1 = obj_delete fileName (di_files st)) /\
  (forall st, cache_consistent localeCompare st ->
      cache_consistent localeCompare (fst (getBinaryImage localeCompare st)) /\
      buf_equiv (snd (getBinaryImage localeCompare st)) (createBinaryImage localeCompare st)) /\
  (forall st n, cache_consistent localeCompare st -> cache_consistent localeCompare (fst (readSector localeCompare st n))) /\
  (forall toUpperCase st fileName fb ign r st',
      loadTIFile toUpperCase st fileName fb ign = Some (r, st') ->
      cache_consistent localeCompare st -> cache_consistent localeCompare st') /\
  (forall st fb, di_binaryImage (loadBinaryImage st fb) = Some fb).
Proof.
  split; [intros st f; eexists; split; [reflexivity | split; reflexivity]|].
  split; [intros st n; eexists; split; [reflexivity | split; reflexivity]|].
  split; [exact getBinaryImage_consistent|].
  split.
  { intros st n H. unfold readSector.
    destruct (getBinaryImage_consistent st H) as [H1 _].
    destruct (getBinaryImage localeCompare st) as [st1 img]. exact H1. }
  split.
  { intros up st fileName fb ign r st' E H. unfold loadTIFile in E.
    destruct (128 <? ulen fb); [|injection E as _ <-; exact H].
    destruct (_ <=? ulen fb); [|injection E as _ <-; exact H].
    destruct (_ =? FileType_DATA).
    - injection E as _ <-. unfold cache_consistent. rewrite putFile_cache. exact I.
    - destruct (_ <? 0); [discriminate E|].
      injection E as _ <-. unfold cache_consistent. rewrite putFile_cache. exact I. }
  intros st fb. reflexivity.
Qed.

(** ** C6 and C7: the VARIABLE packers *)

Lemma land255 (x : Z) : Z.land x 255 = x mod 256.
Proof. change 255 with (Z.ones 8). rewrite Z.land_ones by lia. reflexivity. Qed.

Lemma ti_var_loop_acc (recs : list DiskRecord) : forall d sbl,
  ti_var_loop d sbl recs = let '(o, k) := ti_var_loop [] sbl recs in (d ++ o, k).
Proof.
  induction recs as [|r rs IH]; intros d sbl; [cbn; rewrite app_nil_r; reflexivity|].
  cbn [ti_var_loop].
  destruct (sbl <=? Z.of_nat (length (getData r)));
    [rewrite (IH (pushByte (d ++ _) _ ++ _)), (IH (pushByte ([] ++ _) _ ++ _))
    |rewrite (IH (pushByte d _ ++ _)), (IH (pushByte [] _ ++ _))];
    destruct (ti_var_loop [] _ rs); unfold pushByte; rewrite ?app_nil_l, <- !app_assoc; reflexivity.
Qed.

Lemma close_sector_length (sbl : Z) : 0 <= sbl -> Z.of_nat (length (close_sector sbl)) = sbl.
Proof.
  intros H. unfold close_sector. destruct (Z.ltb_spec 0 sbl).
  - cbn [length]. rewrite repeat_length. lia.
  - cbn. lia.
Qed.

Lemma ti_var_loop_inv (recs : list DiskRecord) : forall d sbl o k,
  Forall (fun r => (length (getData r) <= 255)%nat) recs ->
  0 <= sbl <= 256 -> (Z.of_nat (length d) + sbl) mod 256 = 0 ->
  ti_var_loop d sbl recs = (o, k) ->
  0 <= k <= 256 /\ (Z.of_nat (length o) + k) mod 256 = 0.
Proof.
  induction recs as [|r rs IH]; intros d sbl o k HF Hs Hm E.
  - cbn in E. injection E as <- <-. auto.
  - inversion HF as [|? ? Hr HF']; subst. cbn [ti_var_loop] in E.
    destruct (Z.leb_spec sbl (Z.of_nat (length (getData r)))).
    + apply (IH _ (256 - 1 - Z.of_nat (length (getData r))) _ _ HF' ltac:(lia)) in E; [exact E|].
      unfold pushByte, payload_bytes. rewrite !length_app, length_map, Nat2Z.inj_add,
        Nat2Z.inj_add, Nat2Z.inj_add, close_sector_length by lia. cbn [length].
      rewrite <- Hm. replace (Z.of_nat (length d) + sbl + Z.of_nat 1 + Z.of_nat (length (getData r))
        + (256 - 1 - Z.of_nat (length (getData r)))) with (Z.of_nat (length d) + sbl + 1 * 256) by lia.
      apply Z_mod_plus_full.
    + apply (IH _ (sbl - 1 - Z.of_nat (length (getData r))) _ _ HF' ltac:(lia)) in E; [exact E|].
      unfold pushByte, payload_bytes. rewrite !length_app, length_map, !Nat2Z.inj_add.
      cbn [length]. rewrite <- Hm. f_equal. lia.
Qed.

Lemma write_bytes_app (d : u8arr) (n : Z) (a b : list Z) :
  write_bytes d n (a ++ b) = let '(d1, n1) := write_bytes d n a in write_bytes d1 n1 b.
Proof.
  revert d n. induction a as [|x a IH]; intros d n; [reflexivity|].
  cbn [app write_bytes]. destruct (writeByte d n x). apply IH.
Qed.

Lemma write_bytes_pos (bs : list Z) : forall d n, snd (write_bytes d n bs) = n + Z.of_nat (length bs).
Proof.
  induction bs as [|x bs IH]; intros d n; [cbn; lia|].
  cbn [write_bytes length]. unfold writeByte. rewrite IH. lia.
Qed.

Lemma write_bytes_eta (d : u8arr) (n : Z) (bs : list Z) :
  write_bytes d n bs = (fst (write_bytes d n bs), n + Z.of_nat (length bs)).
Proof. rewrite <- (write_bytes_pos bs d n). destruct (write_bytes d n bs); reflexivity. Qed.

Lemma writeByte_land (d : u8arr) (n b : Z) : writeByte d n (Z.land b 255) = writeByte d n b.
Proof. unfold writeByte. rewrite <- Z.land_assoc, Z.land_diag. reflexivity. Qed.

Lemma cbi_close_write (d : u8arr) (n sbl : Z) :
  (let '(d', _, _) := cbi_close d n sbl in d') = fst (write_bytes d n (close_sector sbl)).
Proof.
  unfold cbi_close, close_sector. destruct (0 <? sbl); [|reflexivity].
  destruct (write_bytes d n _); reflexivity.
Qed.

Lemma cbi_var_loop_sim (recs : list DiskRecord) : forall d n sectorNo sbl o k,
  Forall (fun r => (length (getData r) <= 255)%nat) recs ->
  0 <= sbl -> n = sectorNo * 256 + 256 - sbl ->
  ti_var_loop [] sbl recs = (o, k) ->
  exists sectorNo', cbi_var_loop d n sectorNo sbl recs
                    = (fst (write_bytes d n o), n + Z.of_nat (length o), sectorNo', k) /\
                    n + Z.of_nat (length o) = sectorNo' * 256 + 256 - k.
Proof.
  induction recs as [|r rs IH]; intros d n sectorNo sbl o k HF Hs Hn E.
  - cbn in E. injection E as <- <-. exists sectorNo. cbn. split; [f_equal; f_equal; f_equal; lia | lia].
  - inversion HF as [|? ? Hr HF']; subst n. cbn [ti_var_loop cbi_var_loop] in *.
    set (L := Z.of_nat (length (getData r))) in *.
    destruct (Z.leb_spec sbl L); cbv beta iota in E |- *;
      rewrite ti_var_loop_acc in E;
      destruct (ti_var_loop [] _ rs) as [o' k'] eqn:E'; injection E as <- <-.
    + pose proof (cbi_close_write d (sectorNo * 256 + 256 - sbl) sbl) as Hc.
      destruct (cbi_close d _ sbl) as [[d' xn] xs]. rewrite Hc.
      destruct (write_bytes d (sectorNo * 256 + 256 - sbl) (close_sector sbl)) as [d1 n1] eqn:W1.
      assert (N1 : n1 = (sectorNo + 1) * 256).
      { pose proof (write_bytes_pos (close_sector sbl) d (sectorNo * 256 + 256 - sbl)) as P.
        rewrite W1, close_sector_length in P by lia. cbn in P. lia. }
      cbn [fst]. destruct (writeByte d1 ((sectorNo + 1) * 256) L) as [d2 n2] eqn:W2.
      rewrite (write_bytes_eta d2 n2). cbv beta iota.
      destruct (IH (fst (write_bytes d2 n2 (payload_bytes (getData r)))) (n2 + Z.of_nat (length (payload_bytes (getData r))))
                  (sectorNo + 1) (256 - 1 - L) o' k' HF' ltac:(lia)) as [s' [IH1 IH2]].
      { unfold writeByte in W2. injection W2 as _ <-. unfold payload_bytes. rewrite length_map. lia. }
      { exact E'. }
      rewrite IH1. exists s'.
      unfold pushByte. rewrite <- !app_assoc, !write_bytes_app, W1.
      subst n1. cbn [write_bytes app]. rewrite writeByte_land, W2. cbv beta iota. rewrite write_bytes_app.
      rewrite (write_bytes_eta d2 n2 (payload_bytes _)). cbn [fst]. cbv beta iota.
      rewrite !length_app, !Nat2Z.inj_add, close_sector_length by lia.
      unfold writeByte in W2. injection W2 as _ <-. unfold payload_bytes in *.
      cbn [length]. rewrite ?length_app, ?length_map in *. subst L.
      match goal with |- (?a, ?b, ?c, ?e) = (?a, ?b', ?c, ?e) /\ _ =>
        replace b' with b by lia end.
      split; [reflexivity | lia].
    + destruct (writeByte d (sectorNo * 256 + 256 - sbl) L) as [d2 n2] eqn:W2.
      rewrite (write_bytes_eta d2 n2). cbv beta iota.
      destruct (IH (fst (write_bytes d2 n2 (payload_bytes (getData r)))) (n2 + Z.of_nat (length (payload_bytes (getData r))))
                  sectorNo (sbl - 1 - L) o' k' HF' ltac:(lia)) as [s' [IH1 IH2]].
      { unfold writeByte in W2. injection W2 as _ <-. unfold payload_bytes. rewrite length_map. lia. }
      { exact E'. }
      rewrite IH1. exists s'.
      unfold pushByte. rewrite <- ?app_assoc, ?write_bytes_app.
      cbn [write_bytes app]. rewrite writeByte_land, W2. cbv beta iota. rewrite write_bytes_app.
      rewrite (write_bytes_eta d2 n2 (payload_bytes _)). cbn [fst]. cbv beta iota.
      rewrite ?length_app, ?Nat2Z.inj_add.
      unfold writeByte in W2. injection W2 as _ <-. unfold payload_bytes in *.
      cbn [length]. rewrite ?length_app, ?length_map in *. subst L.
      match goal with |- (?a, ?b, ?c, ?e) = (?a, ?b', ?c, ?e) /\ _ =>
        replace b' with b by lia end.
      split; [reflexivity | lia].
Qed.

Lemma var_stream_shape (recs : list DiskRecord) :
  Forall (fun r => (length (getData r) <= 255)%nat) recs ->
  let '(body, k) := ti_var_loop [] 256 recs in
  0 <= k <= 256 /\ (Z.of_nat (length body) + k) mod 256 = 0 /\
  Z.of_nat (length (var_stream recs)) mod 256 = 0 /\
  (k = 0 -> var_stream recs = body) /\
  (0 < k -> var_stream recs = body ++ 255 :: repeat 0 (Z.to_nat (k - 1))).
Proof.
  intros HF. unfold var_stream. destruct (ti_var_loop [] 256 recs) as [body k] eqn:E.
  destruct (ti_var_loop_inv recs [] 256 body k HF ltac:(lia) eq_refl E) as [Hk Hm].
  split; [exact Hk|]. split; [exact Hm|].
  split; [rewrite length_app, Nat2Z.inj_add, close_sector_length by lia; exact Hm|].
  unfold close_sector. split.
  - intros ->. cbn. apply app_nil_r.
  - intros Hp. destruct (Z.ltb_spec 0 k); [reflexivity | lia].
Qed.

Lemma cbi_content_var (d : u8arr) (file : DiskFile) (startSectorNo : Z) :
  df_fileType file = FileType_DATA -> df_recordType file = RecordType_VARIABLE ->
  Forall (fun r => (length (getData r) <= 255)%nat) (df_records file) ->
  fst (cbi_content d file startSectorNo)
  = fst (write_bytes d (startSectorNo * 256) (var_stream (df_records file))).
Proof.
  intros H1 H2 HF. unfold cbi_content, var_stream. rewrite H1, H2. cbn [Z.eqb FileType_DATA RecordType_FIXED RecordType_VARIABLE Pos.eqb].
  destruct (ti_var_loop [] 256 (df_records file)) as [o k] eqn:E.
  destruct (cbi_var_loop_sim (df_records file) d (startSectorNo * 256) startSectorNo 256 o k HF
              ltac:(lia) ltac:(lia) E) as [s' [S1 _]].
  rewrite S1. cbv beta iota.
  pose proof (cbi_close_write (fst (write_bytes d (startSectorNo * 256) o))
                (startSectorNo * 256 + Z.of_nat (length o)) k) as Hc.
  destruct (cbi_close _ _ k) as [[d2 x2] y2]. cbn [fst]. rewrite Hc.
  rewrite write_bytes_app, (write_bytes_eta d (startSectorNo * 256) o). reflexivity.
Qed.

Lemma createTIFile_var (st : DiskImage) (fileName : jsstr) (file : DiskFile) :
  getFile st fileName = Some file ->
  df_fileType file = FileType_DATA -> df_recordType file = RecordType_VARIABLE ->
  createTIFile st fileName
  = Some (map (fun v => v mod 256) (ti_header fileName file ++ var_stream (df_records file))).
Proof.
  intros H H1 H2. unfold createTIFile, var_stream. rewrite H, H1, H2.
  cbn [Z.eqb FileType_DATA RecordType_FIXED RecordType_VARIABLE Pos.eqb].
  rewrite ti_var_loop_acc. destruct (ti_var_loop [] 256 (df_records file)).
  rewrite app_assoc. reflexivity.
Qed.

(** C6 (amended): for a VARIABLE DATA file whose records are at most 255
    bytes, [createTIFile] emits the header followed by the record stream
    [var_stream], and [createBinaryImage] writes the same stream from the
    file's first data sector.  The stream ends with the record body plus,
    when the last sector still has room ([k > 0] bytes), a [0xFF] and
    zero padding to the sector boundary; when the last record ends exactly
    on a boundary ([k = 0]) nothing follows it.  The stream is always a
    whole number of sectors. *)
Theorem var_export_closing (st : DiskImage) (fileName : jsstr) (file : DiskFile)
    (d : u8arr) (startSectorNo : Z) :
  getFile st fileName = Some file ->
  df_fileType file = FileType_DATA -> df_recordType file = RecordType_VARIABLE ->
  Forall (fun r => (length (getData r) <= 255)%nat) (df_records file) ->
  createTIFile st fileName
    = Some (map (fun v => v mod 256) (ti_header fileName file ++ var_stream (df_records file))) /\
  fst (cbi_content d file startSectorNo)
    = fst (write_bytes d (startSectorNo * 256) (var_stream (df_records file))) /\
  Z.of_nat (length (var_stream (df_records file))) mod 256 = 0 /\
  (let '(body, k) := ti_var_loop [] 256 (df_records file) in
   0 <= k <= 256 /\
   (k = 0 -> var_stream (df_records file) = body) /\
   (0 < k -> var_stream (df_records file) = body ++ 255 :: repeat 0 (Z.to_nat (k - 1)))).
Proof.
  intros H H1 H2 HF.
  split; [exact (createTIFile_var st fileName file H H1 H2)|].
  split; [exact (cbi_content_var d file startSectorNo H1 H2 HF)|].
  pose proof (var_stream_shape (df_records file) HF) as S.
  destruct (ti_var_loop [] 256 (df_records file)) as [body k].
  destruct S as [Hk [_ [Hl [H0 Hp]]]]. auto.
Qed.

Lemma var_export_closing_witness :
  fst (cbi_content (u8_new 1024) varFile127 2)
    = fst (write_bytes (u8_new 1024) (2 * 256) (var_stream (df_records varFile127))) /\
  var_stream (df_records varFile127)
    = fst (ti_var_loop [] 256 (df_records varFile127)).
Proof.
  destruct (var_export_closing varImage127 (js "VARS") varFile127 (u8_new 1024) 2
              ltac:(vm_compute; reflexivity) ltac:(reflexivity) ltac:(reflexivity)
              ltac:(repeat constructor)) as [_ [W [_ R]]].
  split; [exact W|].
  vm_compute in R. destruct R as [_ [R _]]. exact (R eq_refl).
Defined.

Lemma pushString_length (d : list Z) (s : jsstr) (padLen : nat) :
  length (pushString d s padLen) = (length d + padLen)%nat.
Proof.
  unfold pushString. rewrite !length_app, length_firstn, repeat_length.
  destruct (Nat.le_ge_cases padLen (length s)); [rewrite Nat.min_l | rewrite Nat.min_r]; lia.
Qed.

Lemma ti_header_length (fileName : jsstr) (file : DiskFile) : length (ti_header fileName file) = 128%nat.
Proof.
  unfold ti_header. rewrite length_app, repeat_length.
  unfold pushLEWord, pushByte, pushWord.
  rewrite pushString_length, !length_app, pushString_length, !length_app. cbn. reflexivity.
Qed.

Lemma var_stream_cons (r : DiskRecord) (rs : list DiskRecord) :
  (length (getData r) <= 255)%nat ->
  exists rest, var_stream (r :: rs) = Z.land (Z.of_nat (length (getData r))) 255 :: rest.
Proof.
  intros Hr. unfold var_stream. cbn [ti_var_loop].
  destruct (Z.leb_spec 256 (Z.of_nat (length (getData r)))); [lia|].
  cbv beta iota. rewrite ti_var_loop_acc.
  destruct (ti_var_loop [] _ rs) as [o k]. eexists. reflexivity.
Qed.

Lemma u8_get_set (a : u8arr) (i v j : Z) :
  u8_get (u8_set a i v) j = if (j =? i) && in_bounds a i then Some (v mod 256 mod 256) else u8_get a j.
Proof.
  unfold u8_get, u8_set. destruct (in_bounds a i) eqn:B.
  - unfold in_bounds at 1. cbn [ulen ucell]. fold (in_bounds a j).
    destruct (Z.eqb_spec j i); [subst; rewrite B; reflexivity | rewrite andb_false_l; reflexivity].
  - rewrite andb_false_r. reflexivity.
Qed.

Lemma write_bytes_get_below (bs : list Z) : forall d n i,
  i < n -> u8_get (fst (write_bytes d n bs)) i = u8_get d i.
Proof.
  induction bs as [|x bs IH]; intros d n i Hi; [reflexivity|].
  cbn [write_bytes]. unfold writeByte. rewrite IH by lia.
  rewrite u8_get_set. destruct (Z.eqb_spec i n); [lia|reflexivity].
Qed.

(** C7 (amended): the length byte of a VARIABLE record is its length,
    written with no special case: for a VARIABLE DATA file whose first
    record has [L <= 255] bytes, byte 128 of [createTIFile]'s output and
    the first byte of the file's first data sector in the disk image are
    both [L]; so a 255-byte record is emitted with the length byte
    [0xFF]. *)
Theorem var_export_length_byte (st : DiskImage) (fileName : jsstr) (file : DiskFile)
    (r : DiskRecord) (rs : list DiskRecord) (d : u8arr) (startSectorNo : Z) :
  getFile st fileName = Some file ->
  df_fileType file = FileType_DATA -> df_recordType file = RecordType_VARIABLE ->
  df_records file = r :: rs ->
  Forall (fun r => (length (getData r) <= 255)%nat) (df_records file) ->
  in_bounds d (startSectorNo * 256) = true ->
  (exists out, createTIFile st fileName = Some out /\
               nth 128 out 0 = Z.of_nat (length (getData r))) /\
  u8_get (fst (cbi_content d file startSectorNo)) (startSectorNo * 256)
    = Some (Z.of_nat (length (getData r))).
Proof.
  intros H H1 H2 Hrs HF B.
  assert (Hr : (length (getData r) <= 255)%nat) by (rewrite Hrs in HF; inversion HF; assumption).
  assert (HL : Z.land (Z.of_nat (length (getData r))) 255 = Z.of_nat (length (getData r))).
  { rewrite land255. apply Z.mod_small. lia. }
  destruct (var_stream_cons r rs Hr) as [rest Hv].
  split.
  - eexists. split; [exact (createTIFile_var st fileName file H H1 H2)|].
    rewrite Hrs, Hv, map_app, app_nth2; rewrite length_map, ti_header_length; [|lia].
    cbn. rewrite HL, Z.mod_small by lia. reflexivity.
  - rewrite (cbi_content_var d file startSectorNo H1 H2 HF), Hrs, Hv.
    cbn [write_bytes]. unfold writeByte.
    rewrite write_bytes_get_below by lia. rewrite u8_get_set, Z.eqb_refl, B. cbn.
    rewrite HL, HL, (Z.mod_small (Z.of_nat _) 256), (Z.mod_small (Z.of_nat _) 256) by lia. reflexivity.
Qed.

Lemma var_export_length_byte_witness :
  (exists out, createTIFile varImage255 (js "V255") = Some out /\ nth 128 out 0 = 255) /\
  u8_get (fst (cbi_content (u8_new 1024) varFile255 2)) 512 = Some 255.
Proof.
  exact (var_export_length_byte varImage255 (js "V255") varFile255
           (hd (VariableRecord []) (df_records varFile255)) (tl (df_records varFile255))
           (u8_new 1024) 2
           ltac:(vm_compute; reflexivity) ltac:(reflexivity) ltac:(reflexivity)
           ltac:(reflexivity) ltac:(repeat constructor) ltac:(vm_compute; reflexivity)).
Defined.

(** * Further properties of the code *)

(** ** The catalog as a JavaScript object *)

Lemma jsstr_eqb_spec (a b : jsstr) : jsstr_eqb a b = true <-> a = b.
Proof.
  revert b. induction a as [|x a IH]; intros [|y b]; cbn; try (split; congruence).
  rewrite andb_true_iff, Z.eqb_eq, IH. split; [intros [-> ->]; reflexivity | intros H; injection H; auto].
Qed.

Lemma jsstr_eqb_refl (a : jsstr) : jsstr_eqb a a = true.
Proof. apply jsstr_eqb_spec. reflexivity. Qed.

Lemma jsstr_eqb_neq (a b : jsstr) : a <> b -> jsstr_eqb a b = false.
Proof. intros H. destruct (jsstr_eqb a b) eqn:E; [apply jsstr_eqb_spec in E; contradiction | reflexivity]. Qed.

Lemma obj_get_define {A} (o : list (jsstr * A)) (k k' : jsstr) (v : A) :
  obj_get k' (obj_define k v o) = if jsstr_eqb k' k then Some v else obj_get k' o.
Proof.
  induction o as [|[k0 v0] o IH]; cbn.
  - reflexivity.
  - destruct (jsstr_eqb k k0) eqn:E.
    + apply jsstr_eqb_spec in E. subst k0. cbn. destruct (jsstr_eqb k' k); reflexivity.
    + cbn. rewrite IH. destruct (jsstr_eqb k' k0) eqn:E'; [|reflexivity].
      apply jsstr_eqb_spec in E'. subst k0. destruct (jsstr_eqb k' k) eqn:E''; [|reflexivity].
      apply jsstr_eqb_spec in E''. subst k'. rewrite jsstr_eqb_refl in E. discriminate.
Qed.

Lemma obj_get_set {A} (o : list (jsstr * A)) (k k' : jsstr) (v : A) :
  obj_get k' (obj_set k v o)
  = if jsstr_eqb k' k && negb (jsstr_eqb k proto_key) then Some v else obj_get k' o.
Proof.
  unfold obj_set. destruct (jsstr_eqb k proto_key); cbn [negb].
  - rewrite andb_false_r. reflexivity.
  - rewrite andb_true_r. apply obj_get_define.
Qed.

Lemma obj_get_delete {A} (o : list (jsstr * A)) (k k' : jsstr) :
  obj_get k' (obj_delete k o) = if jsstr_eqb k' k then None else obj_get k' o.
Proof.
  unfold obj_delete. induction o as [|[k0 v0] o IH]; cbn.
  - destruct (jsstr_eqb k' k); reflexivity.
  - destruct (jsstr_eqb k k0) eqn:E; cbn.
    + apply jsstr_eqb_spec in E. subst k0. rewrite IH.
      destruct (jsstr_eqb k' k); reflexivity.
    + rewrite IH. destruct (jsstr_eqb k' k0) eqn:E'; [|reflexivity].
      apply jsstr_eqb_spec in E'. subst k0. destruct (jsstr_eqb k' k) eqn:E''; [|reflexivity].
      apply jsstr_eqb_spec in E''. subst k'. rewrite jsstr_eqb_refl in E. discriminate.
Qed.

Lemma fireEvent_files (st : DiskImage) (ev : DiskImageEvent) : di_files (fireEvent st ev) = di_files st.
Proof. unfold fireEvent. destruct (di_handler st); reflexivity. Qed.

(** X1: after [putFile st f] for a file not named [__proto__], looking up
    [f]'s name gives [f] and every other name gives what it gave before. *)
Theorem putFile_getFile (st : DiskImage) (f : DiskFile) (name : jsstr) :
  df_name f <> proto_key ->
  getFile (putFile st f) name = if jsstr_eqb name (df_name f) then Some f else getFile st name.
Proof.
  intros Hn. unfold getFile, putFile. rewrite fireEvent_files.
  change (obj_get name (obj_set (df_name f) f (di_files st)) = if jsstr_eqb name (df_name f) then Some f else obj_get name (di_files st)).
  rewrite obj_get_set.
  rewrite (jsstr_eqb_neq _ _ Hn), andb_true_r. reflexivity.
Qed.

Lemma putFile_getFile_witness :
  getFile (putFile exampleImage varFile127) (df_name varFile127) = Some varFile127.
Proof.
  rewrite (putFile_getFile exampleImage varFile127 (df_name varFile127)
             ltac:(vm_compute; intro H; discriminate H)).
  rewrite jsstr_eqb_refl. reflexivity.
Defined.

(** X2: after [deleteFile st name], looking up [name] gives nothing
    ([undefined]) and every other name gives what it gave before. *)
Theorem deleteFile_getFile (st : DiskImage) (name name' : jsstr) :
  getFile (deleteFile st name) name' = if jsstr_eqb name' name then None else getFile st name'.
Proof. unfold getFile, deleteFile. rewrite fireEvent_files. apply obj_get_delete. Qed.

Lemma obj_define_in {A} (o : list (jsstr * A)) (k x : jsstr) (v : A) :
  In x (map fst (obj_define k v o)) -> x = k \/ In x (map fst o).
Proof.
  induction o as [|[k0 v0] o IH]; cbn.
  - intros [H|[]]; auto.
  - destruct (jsstr_eqb k k0) eqn:E; cbn.
    + apply jsstr_eqb_spec in E. subst k0. intros [H|H]; auto.
    + intros [H|H]; auto. destruct (IH H); auto.
Qed.

Lemma obj_define_nodup {A} (o : list (jsstr * A)) (k : jsstr) (v : A) :
  NoDup (map fst o) -> NoDup (map fst (obj_define k v o)).
Proof.
  induction o as [|[k0 v0] o IH]; cbn; intros H.
  - constructor; [intros []|constructor].
  - inversion H as [|? ? Hn Hd]; subst.
    destruct (jsstr_eqb k k0) eqn:E; cbn.
    + apply jsstr_eqb_spec in E. subst k0. constructor; assumption.
    + constructor; [|exact (IH Hd)].
      intros Hi. destruct (obj_define_in o k k0 v Hi) as [->|Hi']; [|contradiction].
      rewrite jsstr_eqb_refl in E. discriminate.
Qed.

Lemma obj_set_nodup {A} (o : list (jsstr * A)) (k : jsstr) (v : A) :
  NoDup (map fst o) -> NoDup (map fst (obj_set k v o)).
Proof. unfold obj_set. destruct (jsstr_eqb k proto_key); [exact id | apply obj_define_nodup]. Qed.

Lemma obj_set_noproto {A} (o : list (jsstr * A)) (k : jsstr) (v : A) :
  ~ In proto_key (map fst o) -> ~ In proto_key (map fst (obj_set k v o)).
Proof.
  unfold obj_set. destruct (jsstr_eqb k proto_key) eqn:E; [exact id|].
  intros H Hi. destruct (obj_define_in o k proto_key v Hi) as [<-|Hi']; [|contradiction].
  rewrite jsstr_eqb_refl in E. discriminate E.
Qed.

Lemma obj_delete_nodup {A} (o : list (jsstr * A)) (k : jsstr) :
  NoDup (map fst o) -> NoDup (map fst (obj_delete k o)).
Proof.
  unfold obj_delete. induction o as [|[k0 v0] o IH]; cbn; intros H; [constructor|].
  inversion H as [|? ? Hn Hd]; subst.
  destruct (negb (jsstr_eqb k k0)); cbn; [|exact (IH Hd)].
  constructor; [|exact (IH Hd)].
  intros Hi. apply Hn. apply in_map_iff in Hi as [[x y] [Hx Hy]]. cbn in Hx. subst x.
  apply filter_In in Hy as [Hy _]. apply in_map_iff. exists (k0, y). auto.
Qed.

Lemma load_slots_files_inv (P : list (jsstr * DiskFile) -> Prop)
    (HP : forall st f, P (di_files st) -> P (di_files (putFile st f)))
    (fb : u8arr) (spauDCP : Z) (ks : list Z) :
  forall st, P (di_files st) -> P (di_files (load_slots fb spauDCP st ks)).
Proof.
  unfold load_slots.
  induction ks as [|k ks IH]; intros st Hst; cbn [fold_left]; [exact Hst|].
  apply IH. unfold load_slot.
  destruct (num_eqb (fdr_slot fb k) 0); [exact Hst | apply HP, Hst].
Qed.

Lemma putFile_nodup (st : DiskImage) (f : DiskFile) :
  NoDup (map fst (di_files st)) -> NoDup (map fst (di_files (putFile st f))).
Proof. unfold putFile. rewrite fireEvent_files. apply obj_set_nodup. Qed.

(** X3: the catalog never holds two entries under the same name:
    [putFile], [deleteFile] and [loadTIFile] keep the names distinct, and
    the catalogs built by [loadBinaryImage] and [restoreState] have
    distinct names whatever their input. *)
Theorem catalog_names_distinct :
  (forall st f, NoDup (map fst (di_files st)) -> NoDup (map fst (di_files (putFile st f)))) /\
  (forall st name, NoDup (map fst (di_files st)) -> NoDup (map fst (di_files (deleteFile st name)))) /\
  (forall toUpperCase st fileName fb ign r st',
      loadTIFile toUpperCase st fileName fb ign = Some (r, st') ->
      NoDup (map fst (di_files st)) -> NoDup (map fst (di_files st'))) /\
  (forall st fb, NoDup (map fst (di_files (loadBinaryImage st fb)))) /\
  (forall st state, NoDup (map fst (di_files (restoreState st state)))).
Proof.
  split; [exact putFile_nodup|].
  split; [intros st name H; unfold deleteFile; rewrite fireEvent_files; apply obj_delete_nodup, H|].
  split.
  { intros up st fileName fb ign r st' E H. unfold loadTIFile in E.
    destruct (128 <? ulen fb); [|injection E as _ <-; exact H].
    destruct (_ <=? ulen fb); [|injection E as _ <-; exact H].
    destruct (_ =? FileType_DATA).
    - injection E as _ <-. apply putFile_nodup, H.
    - destruct (_ <? 0); [discriminate E|]. injection E as _ <-. apply putFile_nodup, H. }
  split.
  { intros st fb. unfold loadBinaryImage. generalize (zrange 0 127). intros ks. cbn [di_files].
    apply (load_slots_files_inv (fun o => NoDup (map fst o)) putFile_nodup).
    constructor. }
  intros st state. unfold restoreState. cbn [di_files].
  assert (G : forall l o, NoDup (map fst o) ->
            NoDup (map fst (fold_left (fun o p => obj_set (fst p)
              (DiskFile_restoreState (newDiskFile (fst p) FileType_DATA RecordType_FIXED 80 DataType_INTERNAL)
                 (snd p)) o) l o))).
  { induction l as [|p l IH]; intros o Ho; [exact Ho|]. cbn. apply IH, obj_set_nodup, Ho. }
  apply G. constructor.
Qed.

Lemma catalog_names_distinct_witness :
  NoDup (map fst (di_files (putFile exampleImage varFile127))).
Proof.
  apply (proj1 catalog_names_distinct exampleImage varFile127).
  vm_compute. constructor; [intros []|constructor].
Defined.

(** ** Snapshots: [getState] and [restoreState] *)

Lemma obj_get_notin {A} (o : list (jsstr * A)) (k : jsstr) :
  ~ In k (map fst o) -> obj_get k o = None.
Proof.
  induction o as [|[k0 v0] o IH]; cbn; intros H; [reflexivity|].
  rewrite jsstr_eqb_neq by (intros ->; apply H; left; reflexivity).
  apply IH. intros Hi. apply H. right. exact Hi.
Qed.

Lemma obj_fold_set_get {A B} (g : A -> B) (l : list (jsstr * A)) : forall (o : list (jsstr * B)) k,
  NoDup (map fst l) -> ~ In proto_key (map fst l) ->
  obj_get k (fold_left (fun o p => obj_set (fst p) (g (snd p)) o) l o)
  = match obj_get k l with Some v => Some (g v) | None => obj_get k o end.
Proof.
  induction l as [|[k0 v0] l IH]; intros o k H Hp; [reflexivity|].
  inversion H as [|? ? Hn Hd]; subst. cbn [fold_left fst snd].
  rewrite (IH _ k Hd (fun Hi => Hp (or_intror Hi))).
  cbn [obj_get]. rewrite obj_get_set.
  rewrite (jsstr_eqb_neq k0 proto_key) by (intros Hk; subst k0; apply Hp; left; reflexivity).
  rewrite andb_true_r.
  destruct (jsstr_eqb k k0) eqn:E; [|reflexivity].
  apply jsstr_eqb_spec in E. subst k0. rewrite (obj_get_notin l k Hn). reflexivity.
Qed.

Lemma obj_fold_set_nodup {A B} (g : A -> B) (l : list (jsstr * A)) : forall (o : list (jsstr * B)),
  NoDup (map fst o) -> NoDup (map fst (fold_left (fun o p => obj_set (fst p) (g (snd p)) o) l o)).
Proof. induction l as [|p l IH]; intros o H; [exact H|]. cbn. apply IH, obj_set_nodup, H. Qed.

Lemma obj_fold_set_noproto {A B} (g : A -> B) (l : list (jsstr * A)) : forall (o : list (jsstr * B)),
  ~ In proto_key (map fst o) ->
  ~ In proto_key (map fst (fold_left (fun o p => obj_set (fst p) (g (snd p)) o) l o)).
Proof. induction l as [|p l IH]; intros o H; [exact H|]. cbn. apply IH, obj_set_noproto, H. Qed.

Lemma obj_get_perm {A} (l l' : list (jsstr * A)) (k : jsstr) :
  Permutation l l' -> NoDup (map fst l) -> obj_get k l = obj_get k l'.
Proof.
  induction 1 as [|[k0 v0] l l' Hp IH|[k1 v1] [k2 v2] l|l l' l'' H1 IH1 H2 IH2]; intros Hd.
  - reflexivity.
  - inversion Hd; subst. cbn [obj_get]. destruct (jsstr_eqb k k0); [reflexivity | auto].
  - inversion Hd as [|? ? Hn Hd']; subst. cbn [map fst] in Hn.
    cbn [obj_get].
    destruct (jsstr_eqb k k2) eqn:E2, (jsstr_eqb k k1) eqn:E1; try reflexivity.
    apply jsstr_eqb_spec in E1, E2. subst. destruct Hn. left. reflexivity.
  - rewrite (IH1 Hd). apply IH2.
    apply (Permutation_NoDup (Permutation_map fst H1) Hd).
Qed.

Lemma own_keys_order_nodup {A} (o : list (jsstr * A)) :
  NoDup (map fst o) -> NoDup (map fst (own_keys_order o)).
Proof.
  intros H. apply (Permutation_NoDup (Permutation_map fst (Permutation_sym (own_keys_order_perm o))) H).
Qed.

Lemma own_keys_order_noproto {A} (o : list (jsstr * A)) :
  ~ In proto_key (map fst o) -> ~ In proto_key (map fst (own_keys_order o)).
Proof.
  intros H Hi. apply H.
  apply (Permutation_in _ (Permutation_map fst (own_keys_order_perm o)) Hi).
Qed.

Lemma obj_get_own_keys_order {A} (o : list (jsstr * A)) (k : jsstr) :
  NoDup (map fst o) -> obj_get k (own_keys_order o) = obj_get k o.
Proof. intros H. symmetry. apply obj_get_perm; [symmetry; apply own_keys_order_perm | exact H]. Qed.

(** X4: restoring a snapshot taken with [getState] (into any disk image)
    gives back the volume name and, for every name, the same catalog
    lookup, provided the catalog's names are distinct (as an object's
    property names are) and none is [__proto__] (which [putFile] never
    creates as an own property). *)
Theorem getState_restoreState (st st0 : DiskImage) :
  NoDup (map fst (di_files st)) -> ~ In proto_key (map fst (di_files st)) ->
  di_name (restoreState st0 (getState st)) = di_name st /\
  forall k, getFile (restoreState st0 (getState st)) k = getFile st k.
Proof.
  intros H Hp. split; [reflexivity|]. intros k.
  unfold getFile, restoreState, getState. cbn [di_files s_files].
  set (s := fold_left (fun o p => obj_set (fst p) (DiskFile_getState (snd p)) o)
              (own_keys_order (di_files st)) []).
  assert (Hs : NoDup (map fst s)) by (apply obj_fold_set_nodup; constructor).
  assert (Hsp : ~ In proto_key (map fst s)) by (apply obj_fold_set_noproto; intros []).
  change (fun o p => obj_set (fst p) (DiskFile_restoreState
              (newDiskFile (fst p) FileType_DATA RecordType_FIXED 80 DataType_INTERNAL) (snd p)) o)
    with (fun o (p : jsstr * DiskFile) => obj_set (fst p) (snd p) o).
  rewrite (obj_fold_set_get (fun v => v) (own_keys_order s) [] k
             (own_keys_order_nodup s Hs) (own_keys_order_noproto s Hsp)).
  rewrite (obj_get_own_keys_order s k Hs).
  unfold s. rewrite (obj_fold_set_get DiskFile_getState (own_keys_order (di_files st)) [] k
                       (own_keys_order_nodup _ H) (own_keys_order_noproto _ Hp)).
  rewrite (obj_get_own_keys_order _ k H).
  destruct (obj_get k (di_files st)); reflexivity.
Qed.

Lemma getState_restoreState_witness :
  getFile (restoreState (newDiskImage (js "B") false) (getState exampleImage)) (js "TEST") = Some exampleFile.
Proof.
  rewrite (proj2 (getState_restoreState exampleImage (newDiskImage (js "B") false)
                    ltac:(vm_compute; constructor; [intros []|constructor])
                    ltac:(vm_compute; intros [Hq|[]]; discriminate Hq)) (js "TEST")).
  vm_compute. reflexivity.
Defined.

(** ** The cached image *)

(** X5: [getBinaryImage] builds the image at most once: a second call
    (and every [readSector]) on the state it returns hits the cache and
    changes nothing; the name, geometry, catalog and events are never
    changed by it. *)
Theorem getBinaryImage_memo (st : DiskImage) :
  let '(st1, b) := getBinaryImage localeCompare st in
  getBinaryImage localeCompare st1 = (st1, b) /\
  (forall n, fst (readSector localeCompare st1 n) = st1) /\
  di_name st1 = di_name st /\ di_geometry st1 = di_geometry st /\
  di_files st1 = di_files st /\ di_events st1 = di_events st /\ di_binaryImage st1 = Some b.
Proof.
  unfold getBinaryImage. destruct (di_binaryImage st) as [b|] eqn:E.
  - rewrite E. split; [reflexivity|]. split; [|auto 10].
    intros n. unfold readSector, getBinaryImage. rewrite E. reflexivity.
  - cbn [set_binaryImage di_binaryImage]. split; [reflexivity|].
    split; [|repeat split]. intros n. reflexivity.
Qed.


(** ** The encoded image: size, volume information block, bit map *)

Lemma same_below_refl (m : Z) (a : u8arr) : same_below m a a.
Proof. split; reflexivity. Qed.

Lemma same_below_trans (m : Z) (a b c : u8arr) :
  same_below m a b -> same_below m b c -> same_below m a c.
Proof.
  intros [L1 G1] [L2 G2]. split; [congruence|]. intros j Hj. rewrite G2, G1 by exact Hj. reflexivity.
Qed.

Lemma same_below_mono (m m' : Z) (a b : u8arr) : m' <= m -> same_below m a b -> same_below m' a b.
Proof. intros H [L G]. split; [exact L|]. intros j Hj. apply G. lia. Qed.

Lemma u8_set_below (a : u8arr) (i v m : Z) : m <= i -> same_below m a (u8_set a i v).
Proof.
  intros H. split.
  - unfold u8_set. destruct (in_bounds a i); reflexivity.
  - intros j Hj. rewrite u8_get_set. destruct (Z.eqb_spec j i); [lia|reflexivity].
Qed.

Lemma same_below_set_trans (a c : u8arr) (i v m : Z) :
  m <= i -> same_below m (u8_set a i v) c -> same_below m a c.
Proof. intros H. apply same_below_trans, u8_set_below, H. Qed.

Lemma write_units_below (s : jsstr) : forall d n m, m <= n ->
  same_below m d (fst (write_units d n s)) /\ snd (write_units d n s) = n + Z.of_nat (length s).
Proof.
  induction s as [|c s IH]; intros d n m H; cbn [write_units fst snd length].
  - split; [apply same_below_refl | lia].
  - destruct (IH (u8_set d n c) (n + 1) m ltac:(lia)) as [S1 S2].
    split; [apply (same_below_set_trans d _ n c m); [lia | exact S1] | lia].
Qed.

Lemma writeString_below (d : u8arr) (n m : Z) (s : jsstr) (p : nat) : m <= n ->
  same_below m d (fst (writeString d n s p)) /\ n <= snd (writeString d n s p).
Proof.
  intros H. unfold writeString.
  destruct (write_units_below (firstn p s) d n m H) as [S1 S2].
  destruct (write_units d n (firstn p s)) as [d1 n1]. cbn [fst snd] in *.
  destruct (write_units_below (repeat 32 (p - length s)) d1 n1 m ltac:(lia)) as [S3 S4].
  split; [eapply same_below_trans; eassumption | lia].
Qed.

Lemma writeByte_below (d : u8arr) (n m b : Z) : m <= n ->
  same_below m d (fst (writeByte d n b)) /\ snd (writeByte d n b) = n + 1.
Proof. intros H. split; [apply u8_set_below, H | reflexivity]. Qed.

Lemma writeWord_below (d : u8arr) (n m w : Z) : m <= n ->
  same_below m d (fst (writeWord d n w)) /\ snd (writeWord d n w) = n + 2.
Proof.
  intros H. split; [|reflexivity]. unfold writeWord. cbn [fst].
  apply (same_below_set_trans d _ n (Z.shiftr (Z.land w 65280) 8) m); [lia | apply u8_set_below; lia].
Qed.

Lemma writeLEWord_below (d : u8arr) (n m w : Z) : m <= n ->
  same_below m d (fst (writeLEWord d n w)) /\ snd (writeLEWord d n w) = n + 2.
Proof.
  intros H. split; [|reflexivity]. unfold writeLEWord. cbn [fst].
  apply (same_below_set_trans d _ n (Z.land w 255) m); [lia | apply u8_set_below; lia].
Qed.

Lemma write_bytes_below (bs : list Z) (d : u8arr) (n m : Z) : m <= n ->
  same_below m d (fst (write_bytes d n bs)).
Proof.
  revert d n. induction bs as [|b bs IH]; intros d n H; [apply same_below_refl|].
  cbn [write_bytes]. unfold writeByte.
  apply (same_below_set_trans d _ n (Z.land b 255) m); [exact H | apply IH; lia].
Qed.

Lemma cbi_fixed_loop_below (rps : option Z) (recs : list DiskRecord) : forall d n sectorNo recCnt,
  256 <= n -> 0 <= sectorNo ->
  let '(d', sectorNo', _) := cbi_fixed_loop d n sectorNo recCnt rps recs in
  same_below 256 d d' /\ sectorNo <= sectorNo'.
Proof.
  induction recs as [|r rs IH]; intros d n sectorNo recCnt Hn Hs; cbn [cbi_fixed_loop].
  - split; [apply same_below_refl | lia].
  - rewrite write_bytes_eta. cbv beta iota.
    pose proof (write_bytes_below (payload_bytes (getData r)) d n 256 Hn) as W.
    destruct (is_count rps (recCnt + 1)).
    + pose proof (IH (fst (write_bytes d n (payload_bytes (getData r)))) ((sectorNo + 1) * 256)
                     (sectorNo + 1) 0 ltac:(lia) ltac:(lia)) as I.
      destruct (cbi_fixed_loop _ _ _ _ _ _) as [[d' s'] c']. destruct I as [I1 I2].
      split; [eapply same_below_trans; eassumption | lia].
    + pose proof (IH (fst (write_bytes d n (payload_bytes (getData r))))
                     (n + Z.of_nat (length (payload_bytes (getData r))))
                     sectorNo (recCnt + 1) ltac:(lia) Hs) as I.
      destruct (cbi_fixed_loop _ _ _ _ _ _) as [[d' s'] c']. destruct I as [I1 I2].
      split; [eapply same_below_trans; eassumption | lia].
Qed.

Lemma cbi_close_below (d : u8arr) (n sbl : Z) : 256 <= n ->
  let '(d', n', _) := cbi_close d n sbl in same_below 256 d d' /\ n <= n'.
Proof.
  intros H. unfold cbi_close. destruct (0 <? sbl); [|split; [apply same_below_refl | lia]].
  rewrite write_bytes_eta. split; [apply write_bytes_below, H | lia].
Qed.

Lemma cbi_var_loop_below (recs : list DiskRecord) : forall d n sectorNo sbl,
  256 <= n -> 0 <= sectorNo ->
  let '(d', n', sectorNo', _) := cbi_var_loop d n sectorNo sbl recs in
  same_below 256 d d' /\ 256 <= n' /\ sectorNo <= sectorNo'.
Proof.
  induction recs as [|r rs IH]; intros d n sectorNo sbl Hn Hs; cbn [cbi_var_loop].
  - split; [apply same_below_refl | lia].
  - set (L := Z.of_nat (length (getData r))).
    destruct (sbl <=? L).
    + pose proof (cbi_close_below d n sbl Hn) as C.
      destruct (cbi_close d n sbl) as [[d' x] y]. destruct C as [C _].
      cbv beta iota. unfold writeByte. rewrite write_bytes_eta. cbv beta iota.
      pose proof (IH (fst (write_bytes (u8_set d' ((sectorNo + 1) * 256) (Z.land L 255))
                        ((sectorNo + 1) * 256 + 1) (payload_bytes (getData r))))
                     ((sectorNo + 1) * 256 + 1 + Z.of_nat (length (payload_bytes (getData r))))
                     (sectorNo + 1) (256 - 1 - L) ltac:(lia) ltac:(lia)) as I.
      destruct (cbi_var_loop _ _ _ _ rs) as [[[d2 n2] s2] b2]. destruct I as [I1 [I2 I3]].
      split; [|lia].
      eapply same_below_trans; [exact C|]. apply (same_below_set_trans d' _ ((sectorNo + 1) * 256) (Z.land L 255) 256); [lia|].
      eapply same_below_trans; [|exact I1]; apply write_bytes_below; lia.
    + cbv beta iota. unfold writeByte. rewrite write_bytes_eta. cbv beta iota.
      pose proof (IH (fst (write_bytes (u8_set d n (Z.land L 255)) (n + 1) (payload_bytes (getData r))))
                     (n + 1 + Z.of_nat (length (payload_bytes (getData r))))
                     sectorNo (sbl - 1 - L) ltac:(lia) Hs) as I.
      destruct (cbi_var_loop _ _ _ _ rs) as [[[d2 n2] s2] b2]. destruct I as [I1 [I2 I3]].
      split; [|lia].
      apply (same_below_set_trans d _ n (Z.land L 255) 256); [lia|].
      eapply same_below_trans; [|exact I1]; apply write_bytes_below; lia.
Qed.

Lemma cbi_content_below (d : u8arr) (file : DiskFile) (startSectorNo : Z) : 1 <= startSectorNo ->
  same_below 256 d (fst (cbi_content d file startSectorNo)) /\
  startSectorNo - 1 <= snd (cbi_content d file startSectorNo).
Proof.
  intros H. unfold cbi_content.
  destruct (df_fileType file =? FileType_DATA); [destruct (df_recordType file =? RecordType_FIXED)|].
  - pose proof (cbi_fixed_loop_below (recordPerSector_of (df_recordLength file)) (df_records file)
                  d (startSectorNo * 256) startSectorNo 0 ltac:(lia) ltac:(lia)) as F.
    destruct (cbi_fixed_loop _ _ _ _ _ _) as [[d1 s1] c1]. destruct F as [F1 F2].
    cbn [fst snd]. split; [exact F1|]. destruct (c1 =? 0); lia.
  - pose proof (cbi_var_loop_below (df_records file) d (startSectorNo * 256) startSectorNo 256
                  ltac:(lia) ltac:(lia)) as F.
    destruct (cbi_var_loop _ _ _ _ _) as [[[d1 n1] s1] b1]. destruct F as [F1 [F2 F3]].
    pose proof (cbi_close_below d1 n1 b1 F2) as C.
    destruct (cbi_close d1 n1 b1) as [[d2 x] y]. destruct C as [C _].
    cbn [fst snd]. split; [eapply same_below_trans; eassumption|]. destruct (y =? 256); lia.
  - rewrite write_bytes_eta. cbn [fst snd]. split; [apply write_bytes_below; lia|].
    assert (0 <= Z.of_nat (length (df_program file)) / 256) by (apply Z.div_pos; lia).
    destruct (_ mod 256 =? 0); lia.
Qed.

Lemma writeString_beq (d d' : u8arr) (n n' m : Z) (s : jsstr) (p : nat) :
  writeString d n s p = (d', n') -> m <= n -> same_below m d d' /\ n <= n'.
Proof. intros E H. pose proof (writeString_below d n m s p H) as W. rewrite E in W. exact W. Qed.

Lemma writeByte_beq (d d' : u8arr) (n n' m b : Z) :
  writeByte d n b = (d', n') -> m <= n -> same_below m d d' /\ n' = n + 1.
Proof. intros E H. pose proof (writeByte_below d n m b H) as W. rewrite E in W. exact W. Qed.

Lemma writeWord_beq (d d' : u8arr) (n n' m w : Z) :
  writeWord d n w = (d', n') -> m <= n -> same_below m d d' /\ n' = n + 2.
Proof. intros E H. pose proof (writeWord_below d n m w H) as W. rewrite E in W. exact W. Qed.

Lemma writeLEWord_beq (d d' : u8arr) (n n' m w : Z) :
  writeLEWord d n w = (d', n') -> m <= n -> same_below m d d' /\ n' = n + 2.
Proof. intros E H. pose proof (writeLEWord_below d n m w H) as W. rewrite E in W. exact W. Qed.

Lemma cbi_content_beq (d d' : u8arr) (file : DiskFile) (s s' : Z) :
  cbi_content d file s = (d', s') -> 1 <= s -> same_below 256 d d' /\ s - 1 <= s'.
Proof. intros E H. pose proof (cbi_content_below d file s H) as W. rewrite E in W. exact W. Qed.

Lemma low_grow_refl (a : u8arr) : low_grow a a.
Proof.
  split; [reflexivity|]. intros i _. unfold low_rel. destruct (i <? 56); [reflexivity|].
  destruct (u8_get a i); [apply Z.land_diag | exact I].
Qed.

Lemma low_grow_trans (a b c : u8arr) : low_grow a b -> low_grow b c -> low_grow a c.
Proof.
  intros [L1 G1] [L2 G2]. split; [congruence|]. intros i Hi.
  specialize (G1 i Hi). specialize (G2 i Hi). unfold low_rel in *.
  destruct (i <? 56); [congruence|].
  destruct (u8_get a i) as [x|], (u8_get b i) as [y|], (u8_get c i) as [z|]; try contradiction; auto.
  transitivity (Z.land (Z.land x y) z); [now rewrite G1|]. rewrite <- Z.land_assoc, G2. exact G1.
Qed.

Lemma same_below_low_grow (a b : u8arr) : same_below 256 a b -> low_grow a b.
Proof.
  intros [L G]. split; [exact L|]. intros i Hi. rewrite (G i Hi).
  apply low_grow_refl. exact Hi.
Qed.

Lemma land_lor_mod_absorb (x v : Z) : 0 <= x < 256 -> Z.land x ((Z.lor x v) mod 256 mod 256) = x.
Proof.
  intros H. rewrite Z.mod_mod by lia. rewrite <- land255, Z.land_assoc.
  replace (Z.land x (Z.lor x v)) with x.
  - rewrite land255. apply Z.mod_small, H.
  - apply Z.bits_inj'. intros k _. rewrite Z.land_spec, Z.lor_spec. destruct (Z.testbit x k); reflexivity.
Qed.

Lemma mark_au_low_grow (a : u8arr) (i : Z) : 0 <= i -> low_grow a (mark_au a i).
Proof.
  intros Hi. unfold mark_au, u8_or.
  assert (P : 56 <= 56 + Z.shiftr i 3) by (pose proof (Z.shiftr_nonneg i 3); lia).
  destruct (u8_get a (56 + Z.shiftr i 3)) as [old|] eqn:G; [|apply low_grow_refl].
  split; [unfold u8_set; destruct (in_bounds a _); reflexivity|].
  intros j Hj. rewrite u8_get_set.
  destruct (Z.eqb_spec j (56 + Z.shiftr i 3)) as [->|Ne].
  - unfold u8_get in G. destruct (in_bounds a _) eqn:B; [|discriminate G].
    injection G as <-. cbn [andb]. unfold low_rel. destruct (Z.ltb_spec (56 + Z.shiftr i 3) 56); [lia|].
    unfold u8_get. rewrite B. apply land_lor_mod_absorb. apply Z.mod_pos_bound. lia.
  - cbn [andb]. apply low_grow_refl. exact Hj.
Qed.

Lemma zrange_ge (a b x : Z) : In x (zrange a b) -> a <= x.
Proof. unfold zrange. intros H. apply in_map_iff in H as [k [<- _]]. lia. Qed.

Lemma fold_mark_au_low_grow (l : list Z) : forall a,
  (forall x, In x l -> 0 <= x) -> low_grow a (fold_left mark_au l a).
Proof.
  induction l as [|x l IH]; intros a H; [apply low_grow_refl|]. cbn [fold_left].
  eapply low_grow_trans; [apply mark_au_low_grow, H; left; reflexivity|].
  apply IH. intros y Hy. apply H. right. exact Hy.
Qed.

Lemma ceil_div_nonneg (a b : Z) : 0 <= a -> 0 < b -> 0 <= ceil_div a b.
Proof.
  intros Ha Hb. unfold ceil_div.
  assert ((- a) / b <= 0) by (apply Z.div_le_upper_bound; lia). lia.
Qed.

Lemma ceilN_ge (n N : Z) : 0 <= n -> 0 < N -> n <= ceilN n N.
Proof.
  intros Hn HN. unfold ceilN. destruct (Z.rem n N =? 0); cbn [negb]; [lia|].
  pose proof (Z.rem_bound_pos n N Hn HN). lia.
Qed.

Ltac wstep :=
  match goal with
  | |- context [match ?W with pair _ _ => _ end] =>
      let d' := fresh "d" in let n' := fresh "n" in let E := fresh "E" in
      destruct W as [d' n'] eqn:E; cbv beta iota zeta;
      first [ apply (writeString_beq _ _ _ _ 256) in E | apply (writeWord_beq _ _ _ _ 256) in E
            | apply (writeByte_beq _ _ _ _ 256) in E | apply (writeLEWord_beq _ _ _ _ 256) in E
            | apply cbi_content_beq in E ];
      [ let S := fresh "S" in let P := fresh "P" in destruct E as [S P] | lia .. ]
  end.

Ltac chain_below :=
  repeat match goal with
  | S : same_below 256 ?a ?b, T : same_below 256 ?b ?c |- _ =>
      pose proof (same_below_trans _ _ _ _ S T); clear S T
  end.

Lemma cbi_file_low_grow (spau spauDCP firstFdrSector : Z) (d : u8arr) (next f : Z) (file : DiskFile) :
  1 <= spau -> 2 <= firstFdrSector -> 0 <= f -> 1 <= next ->
  low_grow d (fst (cbi_file spau spauDCP firstFdrSector (d, next) f file)) /\
  1 <= snd (cbi_file spau spauDCP firstFdrSector (d, next) f file).
Proof.
  intros Hs Hf Hf0 Hn. unfold cbi_file. cbv beta iota zeta.
  assert (2 <= firstFdrSector + f * spau) by nia.
  repeat wstep. chain_below. cbn [fst snd].
  match goal with S : same_below 256 d ?x |- _ => apply same_below_low_grow in S end.
  split.
  - eapply low_grow_trans; [eassumption|].
    eapply low_grow_trans; [apply fold_mark_au_low_grow|apply mark_au_low_grow].
    + intros x Hx. apply zrange_ge in Hx. pose proof (ceil_div_nonneg next spau ltac:(lia) ltac:(lia)).
      unfold sectorsToAllocationUnits in *. lia.
    + apply ceil_div_nonneg; lia.
  - match goal with P : next - 1 <= ?s |- _ => pose proof (ceilN_ge (s + 1) spau ltac:(lia) ltac:(lia)) end. lia.
Qed.

Lemma cbi_files_low_grow (spau spauDCP firstFdrSector : Z) (files : list DiskFile) :
  1 <= spau -> 2 <= firstFdrSector -> forall d next f, 0 <= f -> 1 <= next ->
  low_grow d (fst (cbi_files spau spauDCP firstFdrSector (d, next) f files)).
Proof.
  intros Hs Hf. induction files as [|file fs IH]; intros d next f Hf0 Hn; [apply low_grow_refl|].
  cbn [cbi_files].
  destruct (cbi_file_low_grow spau spauDCP firstFdrSector d next f file Hs Hf Hf0 Hn) as [G P].
  destruct (cbi_file spau spauDCP firstFdrSector (d, next) f file) as [d1 n1]. cbn [fst snd] in *.
  eapply low_grow_trans; [exact G|]. apply IH; lia.
Qed.

Lemma getSectorsPerAllocationUnit_pos (st : DiskImage) : 1 <= getSectorsPerAllocationUnit st.
Proof.
  unfold getSectorsPerAllocationUnit.
  destruct (num_ltb (totalSectors (di_geometry st)) 1600), (num_ltb (totalSectors (di_geometry st)) 3200),
    (num_ltb (totalSectors (di_geometry st)) 6400); lia.
Qed.

Lemma createBinaryImage_low_grow (st : DiskImage) : low_grow (cbi_volume st) (createBinaryImage localeCompare st).
Proof.
  unfold createBinaryImage. cbv zeta.
  pose proof (getSectorsPerAllocationUnit_pos st) as Hs.
  apply cbi_files_low_grow; try lia.
  pose proof (ceilN_ge (Z.max 2 (getSectorsPerAllocationUnit st)
     + Z.min (Z.of_nat (length (getFilesArray localeCompare st))) 127 * getSectorsPerAllocationUnit st)
     (getSectorsPerAllocationUnit st)) as C.
  assert (0 <= Z.min (Z.of_nat (length (getFilesArray localeCompare st))) 127) by lia.
  assert (0 <= Z.min (Z.of_nat (length (getFilesArray localeCompare st))) 127 * getSectorsPerAllocationUnit st) by nia.
  specialize (C ltac:(lia) ltac:(lia)). lia.
Qed.

Lemma in_bounds_set (a : u8arr) (i v j : Z) : in_bounds (u8_set a i v) j = in_bounds a j.
Proof. unfold in_bounds, u8_set. destruct (in_bounds a i); reflexivity. Qed.

Lemma write_units_get_in (s : jsstr) : forall d n k, (k < length s)%nat ->
  in_bounds d (n + Z.of_nat k) = true ->
  u8_get (fst (write_units d n s)) (n + Z.of_nat k) = Some (nth k s 0 mod 256).
Proof.
  induction s as [|c s IH]; intros d n k Hk B; cbn [length] in Hk; [lia|]. cbn [write_units].
  destruct k as [|k].
  - destruct (write_units_below s (u8_set d n c) (n + 1) (n + 1) ltac:(lia)) as [[_ S] _].
    rewrite S by lia. rewrite u8_get_set. replace (n + Z.of_nat 0) with n in * by lia.
    rewrite Z.eqb_refl, B. cbn. rewrite Z.mod_mod by lia. reflexivity.
  - replace (n + Z.of_nat (S k)) with (n + 1 + Z.of_nat k) in * by lia.
    apply IH; [lia|]. rewrite in_bounds_set. exact B.
Qed.

Lemma write_units_app (d : u8arr) (n : Z) (a b : jsstr) :
  write_units d n (a ++ b) = let '(d1, n1) := write_units d n a in write_units d1 n1 b.
Proof.
  revert d n. induction a as [|c a IH]; intros d n; [reflexivity|]. cbn [app write_units]. apply IH.
Qed.

Lemma vib_units_length (st : DiskImage) : length (vib_units st) = 20%nat.
Proof.
  unfold vib_units. rewrite !length_app, length_firstn, repeat_length.
  change (length (js "DSK")) with 3%nat. cbn [length].
  destruct (Nat.le_ge_cases 10 (length (di_name st))); [rewrite Nat.min_l | rewrite Nat.min_r]; lia.
Qed.

Lemma cbi_volume_eq (st : DiskImage) :
  cbi_volume st =
  fold_left (fun d i => u8_set d i 255) (zrange 236 255)
    (u8_set (fst (write_units (u8_new (js_num (totalSectors (di_geometry st)) * 256)) 0 (vib_units st))) 56
       (Z.land (if getSectorsPerAllocationUnit st =? 1 then 3 else 1) 255)).
Proof.
  unfold cbi_volume, vib_units, writeString. rewrite !write_units_app.
  pose proof (write_units_below (firstn 10 (di_name st))
    (u8_new (js_num (totalSectors (di_geometry st)) * 256)) 0 0 ltac:(lia)) as [_ P1].
  destruct (write_units (u8_new (js_num (totalSectors (di_geometry st)) * 256)) 0 (firstn 10 (di_name st)))
    as [d1 n1]. cbn [snd] in P1.
  pose proof (write_units_below (repeat 32 (10 - length (di_name st))) d1 n1 0 ltac:(lia)) as [_ P2].
  destruct (write_units d1 n1 (repeat 32 (10 - length (di_name st)))) as [d2 n2]. cbn [snd] in P2.
  rewrite length_firstn, repeat_length in *.
  assert (n2 = 10) as ->
    by (destruct (Nat.le_ge_cases 10 (length (di_name st))); [rewrite Nat.min_l in P1 | rewrite Nat.min_r in P1]; lia).
  reflexivity.
Qed.

Lemma fold_set_below (l : list Z) : forall d m, (forall x, In x l -> m <= x) ->
  same_below m d (fold_left (fun d i => u8_set d i 255) l d).
Proof.
  induction l as [|x l IH]; intros d m H; [apply same_below_refl|]. cbn [fold_left].
  apply (same_below_set_trans d _ x 255 m); [apply H; left; reflexivity|].
  apply IH. intros y Hy. apply H. right. exact Hy.
Qed.

Lemma fold_set_notin (l : list Z) : forall d j, ~ In j l ->
  u8_get (fold_left (fun d i => u8_set d i 255) l d) j = u8_get d j.
Proof.
  induction l as [|x l IH]; intros d j H; [reflexivity|]. cbn [fold_left].
  rewrite IH by (intros I; apply H; right; exact I).
  rewrite u8_get_set. destruct (Z.eqb_spec j x); [exfalso; apply H; left; congruence | reflexivity].
Qed.

Lemma fold_set_in (l : list Z) : forall d j, In j l -> in_bounds d j = true ->
  u8_get (fold_left (fun d i => u8_set d i 255) l d) j = Some 255.
Proof.
  induction l as [|x l IH]; intros d j H B; [destruct H|]. cbn [fold_left].
  destruct (in_dec Z.eq_dec j l) as [I|NI].
  - apply IH; [exact I|]. rewrite in_bounds_set. exact B.
  - destruct H as [<-|I]; [|contradiction].
    rewrite fold_set_notin by exact NI. rewrite u8_get_set, Z.eqb_refl, B. reflexivity.
Qed.

Lemma cbi_volume_head (st : DiskImage) (i : Z) : i < 56 ->
  u8_get (cbi_volume st) i
  = u8_get (fst (write_units (u8_new (js_num (totalSectors (di_geometry st)) * 256)) 0 (vib_units st))) i.
Proof.
  intros Hi. rewrite cbi_volume_eq.
  destruct (fold_set_below (zrange 236 255)
    (u8_set (fst (write_units (u8_new (js_num (totalSectors (di_geometry st)) * 256)) 0 (vib_units st))) 56
       (Z.land (if getSectorsPerAllocationUnit st =? 1 then 3 else 1) 255)) 56) as [_ G1].
  { intros x Hx. apply zrange_ge in Hx. lia. }
  rewrite G1 by exact Hi.
  destruct (u8_set_below (fst (write_units (u8_new (js_num (totalSectors (di_geometry st)) * 256)) 0 (vib_units st)))
    56 (Z.land (if getSectorsPerAllocationUnit st =? 1 then 3 else 1) 255) 56 ltac:(lia)) as [_ G2].
  rewrite G2 by exact Hi. reflexivity.
Qed.

Lemma cbi_volume_length (st : DiskImage) :
  ulen (cbi_volume st) = Z.max 0 (js_num (totalSectors (di_geometry st)) * 256).
Proof.
  rewrite cbi_volume_eq.
  destruct (fold_set_below (zrange 236 255)
    (u8_set (fst (write_units (u8_new (js_num (totalSectors (di_geometry st)) * 256)) 0 (vib_units st))) 56
       (Z.land (if getSectorsPerAllocationUnit st =? 1 then 3 else 1) 255)) 0) as [L1 _].
  { intros x Hx. apply zrange_ge in Hx. lia. }
  rewrite L1.
  destruct (u8_set_below (fst (write_units (u8_new (js_num (totalSectors (di_geometry st)) * 256)) 0 (vib_units st)))
    56 (Z.land (if getSectorsPerAllocationUnit st =? 1 then 3 else 1) 255) 0 ltac:(lia)) as [L2 _].
  destruct (write_units_below (vib_units st) (u8_new (js_num (totalSectors (di_geometry st)) * 256)) 0 0
    ltac:(lia)) as [[L3 _] _]. rewrite L2, L3. reflexivity.
Qed.

Lemma createBinaryImage_head (st : DiskImage) (i : Z) : i < 56 ->
  u8_get (createBinaryImage localeCompare st) i
  = u8_get (fst (write_units (u8_new (js_num (totalSectors (di_geometry st)) * 256)) 0 (vib_units st))) i.
Proof.
  intros Hi. destruct (createBinaryImage_low_grow st) as [_ G].
  specialize (G i ltac:(lia)). unfold low_rel in G.
  destruct (Z.ltb_spec i 56); [|lia]. rewrite G. apply cbi_volume_head, Hi.
Qed.

Lemma createBinaryImage_vib (st : DiskImage) (k : nat) : (k < 20)%nat ->
  1 <= js_num (totalSectors (di_geometry st)) ->
  u8_get (createBinaryImage localeCompare st) (Z.of_nat k) = Some (nth k (vib_units st) 0 mod 256).
Proof.
  intros Hk Ht. rewrite createBinaryImage_head by lia.
  replace (Z.of_nat k) with (0 + Z.of_nat k) by lia.
  apply write_units_get_in; [rewrite vib_units_length; exact Hk|].
  unfold in_bounds, u8_new. cbn [ulen]. apply andb_true_intro; split; [apply Z.leb_le | apply Z.ltb_lt]; lia.
Qed.

Lemma createBinaryImage_ulen (st : DiskImage) :
  ulen (createBinaryImage localeCompare st) = Z.max 0 (js_num (totalSectors (di_geometry st)) * 256).
Proof. destruct (createBinaryImage_low_grow st) as [L _]. rewrite L. apply cbi_volume_length. Qed.

Lemma u8_get_range (a : u8arr) (i b : Z) : u8_get a i = Some b -> 0 <= b < 256.
Proof.
  unfold u8_get. destruct (in_bounds a i); intros H; [|discriminate H].
  injection H as <-. apply Z.mod_pos_bound. lia.
Qed.

Lemma in_zrange (a b x : Z) : a <= x <= b -> In x (zrange a b).
Proof.
  intros H. unfold zrange. apply in_map_iff. exists (Z.to_nat (x - a)). split; [lia|].
  apply in_seq. lia.
Qed.

Lemma in_bounds_u8_new (n i : Z) : 0 <= i < n -> in_bounds (u8_new n) i = true.
Proof.
  intros H. unfold in_bounds, u8_new. cbn [ulen].
  apply andb_true_intro; split; [apply Z.leb_le | apply Z.ltb_lt]; lia.
Qed.

Lemma in_bounds_same_len (a b : u8arr) (i : Z) : ulen b = ulen a -> in_bounds b i = in_bounds a i.
Proof. intros L. unfold in_bounds. rewrite L. reflexivity. Qed.

Lemma cbi_volume_bitmap (st : DiskImage) : 1 <= js_num (totalSectors (di_geometry st)) ->
  (forall i, 236 <= i <= 255 -> u8_get (cbi_volume st) i = Some 255) /\
  u8_get (cbi_volume st) 56 = Some (if getSectorsPerAllocationUnit st =? 1 then 3 else 1).
Proof.
  intros Ht. rewrite cbi_volume_eq.
  set (W := fst (write_units (u8_new (js_num (totalSectors (di_geometry st)) * 256)) 0 (vib_units st))).
  assert (LW : ulen W = ulen (u8_new (js_num (totalSectors (di_geometry st)) * 256)))
    by (apply (write_units_below (vib_units st) _ 0 0); lia).
  assert (BW : forall i, 0 <= i < 256 -> in_bounds W i = true)
    by (intros i Hi; rewrite (in_bounds_same_len _ _ _ LW); apply in_bounds_u8_new; lia).
  split.
  - intros i Hi. apply fold_set_in; [apply in_zrange; exact Hi|].
    rewrite in_bounds_set. apply BW. lia.
  - rewrite fold_set_notin by (intros I; apply zrange_ge in I; lia).
    rewrite u8_get_set, Z.eqb_refl, BW by lia. cbn [andb].
    destruct (getSectorsPerAllocationUnit st =? 1); reflexivity.
Qed.

Lemma low_grow_full (a b : u8arr) (i : Z) : low_grow a b -> 56 <= i < 256 ->
  u8_get a i = Some 255 -> u8_get b i = Some 255.
Proof.
  intros [_ G] Hi E. specialize (G i ltac:(lia)). unfold low_rel in G.
  destruct (Z.ltb_spec i 56); [lia|]. rewrite E in G.
  destruct (u8_get b i) as [y|] eqn:Y; [|contradiction].
  apply u8_get_range in Y. rewrite Z.land_comm, land255, Z.mod_small in G by exact Y. congruence.
Qed.

Lemma low_grow_bit (a b : u8arr) (i x k : Z) : low_grow a b -> 56 <= i < 256 ->
  u8_get a i = Some x -> Z.testbit x k = true ->
  exists y, u8_get b i = Some y /\ Z.testbit y k = true.
Proof.
  intros [_ G] Hi E T. specialize (G i ltac:(lia)). unfold low_rel in G.
  destruct (Z.ltb_spec i 56); [lia|]. rewrite E in G.
  destruct (u8_get b i) as [y|]; [|contradiction]. exists y. split; [reflexivity|].
  rewrite <- G, Z.land_spec in T. apply andb_prop in T. apply T.
Qed.

Lemma vib_units_split (st : DiskImage) :
  vib_units st = (firstn 10 (di_name st) ++ repeat 32 (10 - length (di_name st))) ++ vib_tail st.
Proof. reflexivity. Qed.

Lemma vib_name_length (s : jsstr) : length (firstn 10 s ++ repeat 32 (10 - length s)) = 10%nat.
Proof.
  rewrite length_app, length_firstn, repeat_length.
  destruct (Nat.le_ge_cases 10 (length s)); [rewrite Nat.min_l | rewrite Nat.min_r]; lia.
Qed.

Lemma createBinaryImage_tail_byte (st : DiskImage) (j : nat) : (j < 10)%nat ->
  1 <= js_num (totalSectors (di_geometry st)) ->
  u8_get (createBinaryImage localeCompare st) (10 + Z.of_nat j) = Some (nth j (vib_tail st) 0 mod 256).
Proof.
  intros Hj Ht. replace (10 + Z.of_nat j) with (Z.of_nat (10 + j)) by lia.
  rewrite createBinaryImage_vib by (lia || exact Ht).
  rewrite vib_units_split. rewrite <- (vib_name_length (di_name st)) at 1.
  rewrite app_nth2_plus. reflexivity.
Qed.

Lemma createBinaryImage_name_byte (st : DiskImage) (k : nat) : (k < 10)%nat ->
  1 <= js_num (totalSectors (di_geometry st)) ->
  u8_get (createBinaryImage localeCompare st) (0 + Z.of_nat k)
  = Some (nth k (firstn 10 (di_name st) ++ repeat 32 (10 - length (di_name st))) 0 mod 256).
Proof.
  intros Hk Ht. rewrite Z.add_0_l, createBinaryImage_vib by (lia || exact Ht).
  rewrite vib_units_split, app_nth1 by (rewrite vib_name_length; exact Hk). reflexivity.
Qed.

Lemma flat_map_seq_nth (h : Z -> list Z) (F : nat -> list Z) (L : list Z) : forall s,
  (forall k, (k < length L)%nat -> F (s + k)%nat = h (nth k L 0)) ->
  flat_map F (seq s (length L)) = flat_map h L.
Proof.
  induction L as [|x L IH]; intros s H; [reflexivity|]. cbn [length seq flat_map].
  f_equal.
  - rewrite <- (Nat.add_0_r s) at 1. apply (H 0%nat). cbn [length]. lia.
  - apply IH. intros k Hk. replace (S s + k)%nat with (s + S k)%nat by lia.
    apply (H (S k)). cbn [length]. lia.
Qed.

Lemma flat_map_keep_printable (l : list Z) :
  flat_map keep_printable l = filter (fun c => (32 <=? c) && (c <? 128)) (map (fun c => c mod 256) l).
Proof.
  induction l as [|c l IH]; [reflexivity|]. cbn [flat_map map filter]. rewrite IH.
  unfold keep_printable. destruct ((32 <=? c mod 256) && (c mod 256 <? 128)); reflexivity.
Qed.

Lemma flat_map_keep_spaces (m : nat) : flat_map keep_printable (repeat 32 m) = repeat 32 m.
Proof. induction m as [|m IH]; [reflexivity|]. cbn [repeat flat_map]. rewrite IH. reflexivity. Qed.

Lemma drop_ws_app (l r : jsstr) :
  drop_ws (l ++ r) = match drop_ws l with [] => drop_ws r | y => y ++ r end.
Proof.
  induction l as [|c l IH]; [reflexivity|]. cbn [app drop_ws].
  destruct (js_is_ws c); [exact IH | reflexivity].
Qed.

Lemma drop_ws_spaces (m : nat) : drop_ws (repeat 32 m) = [].
Proof. induction m as [|m IH]; [reflexivity|]. exact IH. Qed.

Lemma js_trim_spaces (l : jsstr) (m : nat) : js_trim (l ++ repeat 32 m) = js_trim l.
Proof.
  unfold js_trim. rewrite drop_ws_app. destruct (drop_ws l) as [|y ys] eqn:E.
  - rewrite drop_ws_spaces. reflexivity.
  - rewrite rev_app_distr, rev_repeat, drop_ws_app, drop_ws_spaces. reflexivity.
Qed.

Lemma read_name_createBinaryImage (st : DiskImage) : 1 <= js_num (totalSectors (di_geometry st)) ->
  read_name (createBinaryImage localeCompare st) 0
  = js_trim (filter (fun c => (32 <=? c) && (c <? 128)) (map (fun c => c mod 256) (firstn 10 (di_name st)))).
Proof.
  intros Ht. unfold read_name, zrange. rewrite flat_map_concat_map, map_map, <- flat_map_concat_map.
  replace (Z.to_nat (0 + 9 - 0 + 1)) with (length (firstn 10 (di_name st) ++ repeat 32 (10 - length (di_name st))))
    by (rewrite vib_name_length; reflexivity).
  rewrite (flat_map_seq_nth keep_printable).
  - rewrite flat_map_app, flat_map_keep_printable, flat_map_keep_spaces. apply js_trim_spaces.
  - intros k Hk. rewrite vib_name_length in Hk. cbn [Nat.add].
    rewrite createBinaryImage_name_byte by (exact Hk || exact Ht). reflexivity.
Qed.

Lemma word_bytes_join (w : Z) : 0 <= w < 65536 ->
  Z.shiftl (Z.shiftr (Z.land w 65280) 8 mod 256) 8 + Z.land w 255 mod 256 = w.
Proof.
  intros H. rewrite Z.shiftr_land. change (Z.shiftr 65280 8) with 255.
  rewrite !land255, Z.shiftr_div_pow2, Z.shiftl_mul_pow2 by lia. change (2 ^ 8) with 256.
  rewrite !Z.mod_mod by lia.
  assert (0 <= w / 256 < 256) by (split; [apply Z.div_pos | apply Z.div_lt_upper_bound]; lia).
  rewrite (Z.mod_small (w / 256)) by lia. pose proof (Z.div_mod w 256). lia.
Qed.

Lemma land_byte_small (x : Z) : 0 <= x < 256 -> Z.land x 255 mod 256 = x.
Proof. intros H. rewrite land255, Z.mod_mod, Z.mod_small by lia. reflexivity. Qed.

(** X6: The size of the encoded image is fixed by the geometry alone:
    [createBinaryImage] returns [totalSectors * 256] bytes (none for a
    non-positive sector count), whatever the catalog holds; content that
    does not fit is dropped, never appended. *)
Theorem createBinaryImage_size (st : DiskImage) :
  ulen (createBinaryImage localeCompare st) = Z.max 0 (js_num (totalSectors (di_geometry st)) * 256).
Proof. apply createBinaryImage_ulen. Qed.

(** X7: In the allocation bit map of the encoded image, bytes [0xEC..0xFF] are
    all ones, and the allocation units of sectors 0 and 1 (the volume
    header and the descriptor index) are marked used: bit 0 of byte
    [0x38], and bit 1 as well when an allocation unit is one sector. The
    per-file marking only ever sets bits. *)
Theorem createBinaryImage_bitmap (st : DiskImage) :
  1 <= js_num (totalSectors (di_geometry st)) ->
  (forall i, 236 <= i <= 255 -> u8_get (createBinaryImage localeCompare st) i = Some 255) /\
  exists b, u8_get (createBinaryImage localeCompare st) 56 = Some b /\ Z.testbit b 0 = true /\
            (getSectorsPerAllocationUnit st = 1 -> Z.testbit b 1 = true).
Proof.
  intros Ht. destruct (cbi_volume_bitmap st Ht) as [T B].
  pose proof (createBinaryImage_low_grow st) as G. split.
  - intros i Hi. apply (low_grow_full (cbi_volume st)); [exact G | lia | apply T; exact Hi].
  - destruct (low_grow_bit _ _ 56 _ 0 G ltac:(lia) B) as [y [Y Y0]].
    { destruct (getSectorsPerAllocationUnit st =? 1); reflexivity. }
    exists y. split; [exact Y|]. split; [exact Y0|]. intros E.
    rewrite E in B. cbn in B.
    destruct (low_grow_bit _ _ 56 _ 1 G ltac:(lia) B) as [y' [Y' Y1]]; [reflexivity|].
    congruence.
Qed.

(** X8: Round trip of the volume header: decoding the encoded image of [st]
    (into any disk image) gives back the geometry of [st] when its five
    properties are numbers, the sector count is positive and fits the
    16-bit field, and the other four properties fit a byte; the volume name
    read back is the first ten code units of the name, each taken modulo
    256, with the unprintable ones dropped, then trimmed. *)
Theorem loadBinaryImage_createBinaryImage_volume (st st0 : DiskImage) (ts spt tps ns den : Z) :
  di_geometry st = {| totalSectors := Some ts; sectorsPerTrack := Some spt; tracksPerSide := Some tps;
                      numberOfSides := Some ns; density := Some den |} ->
  1 <= ts < 65536 -> 0 <= spt < 256 -> 0 <= tps < 256 -> 0 <= ns < 256 -> 0 <= den < 256 ->
  di_geometry (loadBinaryImage st0 (createBinaryImage localeCompare st)) = di_geometry st /\
  di_name (loadBinaryImage st0 (createBinaryImage localeCompare st))
  = js_trim (filter (fun c => (32 <=? c) && (c <? 128))
                    (map (fun c => c mod 256) (firstn 10 (di_name st)))).
Proof.
  intros Hg Hts Hspt Htps Hns Hden.
  assert (Ht1 : 1 <= js_num (totalSectors (di_geometry st))) by (rewrite Hg; cbn [totalSectors js_num]; lia).
  pose proof (createBinaryImage_tail_byte st 0 ltac:(lia) Ht1) as B10.
  pose proof (createBinaryImage_tail_byte st 1 ltac:(lia) Ht1) as B11.
  pose proof (createBinaryImage_tail_byte st 2 ltac:(lia) Ht1) as B12.
  pose proof (createBinaryImage_tail_byte st 7 ltac:(lia) Ht1) as B17.
  pose proof (createBinaryImage_tail_byte st 8 ltac:(lia) Ht1) as B18.
  pose proof (createBinaryImage_tail_byte st 9 ltac:(lia) Ht1) as B19.
  change (10 + Z.of_nat 0) with 10 in B10. change (10 + Z.of_nat 1) with 11 in B11.
  change (10 + Z.of_nat 2) with 12 in B12. change (10 + Z.of_nat 7) with 17 in B17.
  change (10 + Z.of_nat 8) with 18 in B18. change (10 + Z.of_nat 9) with 19 in B19.
  unfold vib_tail in *. rewrite Hg in B10, B11, B12, B17, B18, B19.
  cbn [nth totalSectors sectorsPerTrack tracksPerSide numberOfSides density js_num]
    in B10, B11, B12, B17, B18, B19.
  split.
  - unfold loadBinaryImage. cbn [di_geometry]. unfold word_at. change (10 + 1) with 11.
    rewrite B10, B11, B12, B17, B18, B19. cbn [js_num num_add].
    rewrite word_bytes_join by lia. rewrite !land_byte_small by assumption.
    rewrite Hg. reflexivity.
  - unfold loadBinaryImage. cbn [di_name]. apply read_name_createBinaryImage. exact Ht1.
Qed.

(** ** Single-file import: the fallback reader and PROGRAM files *)

Lemma read_bytes_nil (fb : u8arr) (base count : Z) : count <= 0 -> read_bytes fb base count = [].
Proof.
  intros H. unfold read_bytes, zrange. replace (Z.to_nat (count - 1 - 0 + 1)) with 0%nat by lia.
  reflexivity.
Qed.

Lemma read_bytes_cons (fb : u8arr) (base count : Z) : 0 < count ->
  read_bytes fb base count = u8_get fb base :: read_bytes fb (base + 1) (count - 1).
Proof.
  intros H. unfold read_bytes, zrange.
  replace (Z.to_nat (count - 1 - 0 + 1)) with (S (Z.to_nat (count - 1 - 1 - 0 + 1))) by lia.
  cbn [seq map]. f_equal; [f_equal; lia|].
  rewrite <- seq_shift, !map_map. apply map_ext. intros k. f_equal. lia.
Qed.

Ltac crush_lit :=
  repeat match goal with
  | |- context [match ?p with xI _ => _ | xO _ => _ | xH => _ end] =>
      is_var p; destruct p; cbv beta iota
  | |- context [match ?z with Z0 => _ | Zpos _ => _ | Zneg _ => _ end] =>
      is_var z; destruct z; cbv beta iota
  end.

Lemma crlf_skip_false (a b : option Z) : a <> Some 13 -> b <> Some 10 ->
  match a, b with Some 13, _ => true | _, Some 10 => true | _, _ => false end = false.
Proof.
  intros Ha Hb. destruct a as [z|], b as [w|]; cbv beta iota; crush_lit; congruence.
Qed.

Lemma pc_loop_chunks (fb : u8arr) (NC : forall i, u8_get fb i <> Some 13 /\ u8_get fb i <> Some 10) :
  forall fuel i data f, 0 <= i -> (Z.to_nat (ulen fb - i) < fuel)%nat -> (length data < 80)%nat ->
  exists rs, pc_loop fuel fb 80 i data f = fold_left putRecord rs f /\
    flat_map getData rs = data ++ read_bytes fb i (ulen fb - i) /\
    Forall (fun r => exists d, r = FixedRecord d 80 /\ (1 <= length d <= 80)%nat) rs /\
    Forall (fun r => length (getData r) = 80%nat) (removelast rs).
Proof.
  induction fuel as [|fuel IH]; intros i data f Hi Hf Hd; [lia|]. cbn [pc_loop].
  destruct (Z.ltb_spec i (ulen fb)) as [Lt|Ge].
  - rewrite (read_bytes_cons fb i) by lia. replace (ulen fb - i - 1) with (ulen fb - (i + 1)) by lia.
    rewrite length_app. cbn [length].
    destruct (Z.eqb_spec (Z.of_nat (length data + 1)) 80) as [E|Ne].
    + rewrite crlf_skip_false by (apply NC).
      destruct (IH (i + 1) [] (putRecord f (FixedRecord (data ++ [u8_get fb i]) 80)) ltac:(lia) ltac:(lia)
                   ltac:(cbn; lia)) as [rs [R [C [F1 F2]]]].
      exists (FixedRecord (data ++ [u8_get fb i]) 80 :: rs). split; [exact R|]. split.
      * cbn [flat_map getData]. rewrite C. rewrite <- app_assoc. reflexivity.
      * split.
        -- constructor; [|exact F1]. eexists; split; [reflexivity|]. rewrite length_app. cbn [length]. lia.
        -- destruct rs as [|r rs]; [constructor|]. cbn [removelast]. constructor; [|exact F2].
           cbn [getData]. rewrite length_app. cbn [length]. lia.
    + destruct (IH (i + 1) (data ++ [u8_get fb i]) f ltac:(lia) ltac:(lia)
                   ltac:(rewrite length_app; cbn [length]; lia)) as [rs [R [C F]]].
      exists rs. split; [exact R|]. split; [|exact F]. rewrite C, <- app_assoc. reflexivity.
  - rewrite read_bytes_nil by lia. rewrite app_nil_r.
    destruct (Z.ltb_spec 0 (Z.of_nat (length data))).
    + exists [FixedRecord data 80]. split; [reflexivity|]. split; [cbn; apply app_nil_r|].
      split; [constructor; [eexists; split; [reflexivity|lia] | constructor] | constructor].
    + exists []. destruct data; [|cbn in *; lia].
      split; [reflexivity|]. split; [reflexivity|]. split; constructor.
Qed.

Lemma fold_putRecord_records (rs : list DiskRecord) : forall f,
  df_records (fold_left putRecord rs f) = df_records f ++ rs /\
  df_name (fold_left putRecord rs f) = df_name f /\
  df_fileType (fold_left putRecord rs f) = df_fileType f /\
  df_recordType (fold_left putRecord rs f) = df_recordType f /\
  df_recordLength (fold_left putRecord rs f) = df_recordLength f /\
  df_dataType (fold_left putRecord rs f) = df_dataType f.
Proof.
  induction rs as [|r rs IH]; intros f; [rewrite app_nil_r; repeat split|].
  cbn [fold_left]. destruct (IH (putRecord f r)) as [A [B [C [D [E G]]]]].
  rewrite A, B, C, D, E, G. cbn. rewrite <- app_assoc. repeat split.
Qed.

Lemma zeroBuffer129_no_crlf (i : Z) : u8_get zeroBuffer129 i <> Some 13 /\ u8_get zeroBuffer129 i <> Some 10.
Proof.
  unfold zeroBuffer129, u8_get, u8_new. cbn [ulen ucell]. rewrite Zmod_0_l.
  destruct (in_bounds _ i); split; intro H; inversion H.
Qed.

(** X9: The fallback reader of [loadTIFile]: a buffer of more than 128 bytes
    with neither a TIFILES nor a V9T9 header, and without a byte [0x0D] or
    [0x0A], is imported as a DISPLAY/FIXED 80 DATA file whose records,
    concatenated, are the whole buffer in order; every record has 80 bytes
    except the last one, which has 1 to 80. *)
Theorem loadTIFile_fallback_records (toUpperCase : jsstr -> jsstr) (st : DiskImage) (fileName : jsstr)
    (fb : u8arr) (ignoreTIFileName : bool) :
  128 < ulen fb -> isTIFILES fb = false -> isV9T9 toUpperCase fileName fb = false ->
  (forall i, u8_get fb i <> Some 13 /\ u8_get fb i <> Some 10) ->
  exists file, loadTIFile toUpperCase st fileName fb ignoreTIFileName = Some (Some file, putFile st file) /\
    df_fileType file = FileType_DATA /\ df_recordType file = RecordType_FIXED /\
    df_recordLength file = 80 /\ df_dataType file = DataType_DISPLAY /\
    flat_map getData (df_records file) = read_bytes fb 0 (ulen fb) /\
    Forall (fun r => exists d, r = FixedRecord d 80 /\ (1 <= length d <= 80)%nat) (df_records file) /\
    Forall (fun r => length (getData r) = 80%nat) (removelast (df_records file)).
Proof.
  intros Hl HT HV NC. unfold loadTIFile.
  replace (128 <? ulen fb) with true by (symmetry; apply Z.ltb_lt; exact Hl).
  unfold ti_header_of. rewrite HT, HV. cbv zeta.
  cbn [h_sectorOffset h_fileLength h_fileType h_recordType h_pcFormat h_recordLength h_tiFileName h_datatype].
  replace (0 + ulen fb <=? ulen fb) with true by (symmetry; apply Z.leb_le; lia).
  rewrite Z.eqb_refl. unfold ti_data_file.
  cbn [h_sectorOffset h_fileLength h_fileType h_recordType h_pcFormat h_recordLength h_tiFileName h_datatype].
  rewrite Z.eqb_refl. cbn [negb].
  destruct (pc_loop_chunks fb NC (Z.to_nat (ulen fb) + 1) 0 []
    (newDiskFile (name_from fileName (fun _ => Z.of_nat (length fileName) <? 10))
       FileType_DATA RecordType_FIXED 80 DataType_DISPLAY) ltac:(lia) ltac:(lia) ltac:(cbn; lia))
    as [rs [R [C [F1 F2]]]].
  rewrite R. eexists. split; [reflexivity|].
  destruct (fold_putRecord_records rs (newDiskFile (name_from fileName (fun _ => Z.of_nat (length fileName) <? 10))
       FileType_DATA RecordType_FIXED 80 DataType_DISPLAY)) as [A [_ [B [D [E G]]]]].
  rewrite A, B, D, E, G. cbn [newDiskFile df_records df_fileType df_recordType df_recordLength df_dataType app].
  rewrite C, Z.sub_0_r. repeat split; assumption.
Qed.

Lemma loadTIFile_fallback_records_witness :
  128 < ulen zeroBuffer129 /\ isTIFILES zeroBuffer129 = false /\
  isV9T9 ascii_toUpperCase (js "X") zeroBuffer129 = false /\
  exists file, loadTIFile ascii_toUpperCase (newDiskImage (js "D") false) (js "X") zeroBuffer129 false
               = Some (Some file, putFile (newDiskImage (js "D") false) file) /\
               flat_map getData (df_records file) = read_bytes zeroBuffer129 0 129.
Proof.
  assert (H1 : 128 < ulen zeroBuffer129) by (vm_compute; reflexivity).
  assert (H2 : isTIFILES zeroBuffer129 = false) by (vm_compute; reflexivity).
  assert (H3 : isV9T9 ascii_toUpperCase (js "X") zeroBuffer129 = false) by (vm_compute; reflexivity).
  split; [exact H1|]. split; [exact H2|]. split; [exact H3|].
  destruct (loadTIFile_fallback_records ascii_toUpperCase (newDiskImage (js "D") false) (js "X")
    zeroBuffer129 false H1 H2 H3 zeroBuffer129_no_crlf) as [file [L [_ [_ [_ [_ [C _]]]]]]].
  exists file. split; [exact L | exact C].
Defined.

Lemma u8_fill_write_units (xs : list Z) : forall a n, u8_fill a n xs = fst (write_units a n xs).
Proof. induction xs as [|x xs IH]; intros a n; [reflexivity|]. apply IH. Qed.

Lemma u8_of_list_ulen (xs : list Z) : ulen (u8_of_list xs) = Z.of_nat (length xs).
Proof.
  unfold u8_of_list. rewrite u8_fill_write_units.
  destruct (write_units_below xs (u8_new (Z.of_nat (length xs))) 0 0 ltac:(lia)) as [[L _] _].
  rewrite L. cbn [ulen u8_new]. lia.
Qed.

Lemma u8_of_list_get (xs : list Z) (i : Z) : 0 <= i < Z.of_nat (length xs) ->
  u8_get (u8_of_list xs) i = Some (nth (Z.to_nat i) xs 0 mod 256).
Proof.
  intros H. unfold u8_of_list. rewrite u8_fill_write_units.
  replace i with (0 + Z.of_nat (Z.to_nat i)) at 1 by lia.
  apply write_units_get_in; [lia|]. apply in_bounds_u8_new. lia.
Qed.

Lemma map_seq_nth {B} (h : Z -> B) (F : nat -> B) (L : list Z) : forall s,
  (forall k, (k < length L)%nat -> F (s + k)%nat = h (nth k L 0)) ->
  map F (seq s (length L)) = map h L.
Proof.
  induction L as [|x L IH]; intros s H; [reflexivity|]. cbn [length seq map]. f_equal.
  - rewrite <- (Nat.add_0_r s) at 1. apply (H 0%nat). cbn [length]. lia.
  - apply IH. intros k Hk. replace (S s + k)%nat with (s + S k)%nat by lia.
    apply (H (S k)). cbn [length]. lia.
Qed.

Lemma js_is_ws_false (c : Z) : 33 <= c < 128 -> js_is_ws c = false.
Proof.
  intros H. unfold js_is_ws.
  repeat match goal with
  | |- context [?a <=? ?b] => destruct (Z.leb_spec a b)
  | |- context [?a =? ?b] => destruct (Z.eqb_spec a b)
  end; cbn; try reflexivity; lia.
Qed.

Lemma js_trim_no_ws (s : jsstr) : Forall (fun c => 33 <= c < 128) s -> js_trim s = s.
Proof.
  intros H. unfold js_trim.
  assert (D : forall l, Forall (fun c => 33 <= c < 128) l -> drop_ws l = l).
  { intros [|c l] F; [reflexivity|]. cbn [drop_ws]. inversion F; subst.
    rewrite js_is_ws_false by assumption. reflexivity. }
  rewrite (D s H), D, rev_involutive; [reflexivity|]. apply Forall_rev, H.
Qed.

Lemma filter_printable_id (s : jsstr) : Forall (fun c => 33 <= c < 128) s ->
  filter (fun c => (32 <=? c) && (c <? 128)) (map (fun c => c mod 256) s) = s.
Proof.
  induction 1 as [|c s Hc _ IH]; [reflexivity|]. cbn [map filter].
  rewrite Z.mod_small by lia. rewrite IH.
  replace ((32 <=? c) && (c <? 128)) with true by (symmetry; apply andb_true_intro; split; [apply Z.leb_le | apply Z.ltb_lt]; lia).
  reflexivity.
Qed.

Lemma lor_shiftl_byte (a b : Z) : 0 <= b < 256 -> Z.lor (Z.shiftl a 8) b = Z.shiftl a 8 + b.
Proof.
  intros H. rewrite <- Z.lxor_lor, <- Z.add_nocarry_lxor; [reflexivity| |];
  apply Z.bits_inj'; intros k Hk; rewrite Z.land_spec, Z.bits_0;
  destruct (Z.ltb_spec k 8).
  all: try (rewrite Z.shiftl_spec_low by lia; reflexivity).
  all: replace (Z.testbit b k) with false; [apply andb_false_r|];
       symmetry; rewrite <- (Z.mod_small b (2 ^ 8)) by (change (2 ^ 8) with 256; lia);
       apply Z.mod_pow2_bits_high; lia.
Qed.

Lemma ceil_div_256_eof (L : Z) : 0 <= L ->
  ceil_div L 256 * 256 - (if 0 <? L mod 256 then 256 - L mod 256 else 0) = L.
Proof.
  intros H. unfold ceil_div. pose proof (Z.div_mod L 256 ltac:(lia)). pose proof (Z.mod_pos_bound L 256 ltac:(lia)).
  destruct (Z.eq_dec (L mod 256) 0) as [E|E].
  - rewrite Z.div_opp_l_z by lia. rewrite E. cbn. lia.
  - rewrite Z.div_opp_l_nz by lia. destruct (Z.ltb_spec 0 (L mod 256)); lia.
Qed.

Lemma statusFlags_bit0 (f : DiskFile) : df_fileType f = FileType_PROGRAM ->
  Z.land (Z.land (statusFlags f) 255 mod 256) 1 = 1.
Proof.
  intros Ft. rewrite <- land255, <- Z.land_assoc. change (Z.land 255 1) with 1.
  apply Z.bits_inj'. intros k Hk. rewrite !Z.land_spec.
  destruct (Z.eq_dec k 0) as [->|Ne].
  - unfold statusFlags. rewrite !Z.lor_spec, !Z.shiftl_spec_low by lia. rewrite Ft. reflexivity.
  - rewrite (Z.bits_above_log2 1 k) by (cbn; lia). apply andb_false_r.
Qed.

Lemma ti_header_name_nth (fileName : jsstr) (file : DiskFile) (k : nat) : (k < 10)%nat ->
  nth (16 + k) (ti_header fileName file) 0
  = nth k (firstn 10 fileName ++ repeat 32 (10 - length fileName)) 0.
Proof.
  intros Hk. unfold ti_header. cbv zeta.
  rewrite app_nth1 by (rewrite pushString_length; unfold pushLEWord, pushByte, pushWord;
                       rewrite !length_app, pushString_length; cbn; lia).
  unfold pushString at 1. reflexivity.
Qed.
Lemma ti_header_bytes (fileName : jsstr) (file : DiskFile) :
  nth 0 (ti_header fileName file) 0 = 7 /\
  map (fun k => nth k (ti_header fileName file) 0) [1;2;3;4;5;6;7]%nat = js "TIFILES" /\
  nth 8 (ti_header fileName file) 0 = Z.shiftr (Z.land (getSectorCount file) 65280) 8 /\
  nth 9 (ti_header fileName file) 0 = Z.land (getSectorCount file) 255 /\
  nth 10 (ti_header fileName file) 0 = Z.land (statusFlags file) 255 /\
  nth 12 (ti_header fileName file) 0 = Z.land (getEOFOffset file) 255.
Proof. repeat split; reflexivity. Qed.
(** X10: Round trip of a program file: the tagged archive [createTIFile] makes for a
    non-empty program file under a printable name of one to ten characters is
    read back by [loadTIFile] as a program file of that name, holding the
    program's bytes, and added to the target image. *)
Theorem createTIFile_loadTIFile_program (toUpperCase : jsstr -> jsstr) (st st0 : DiskImage)
    (fileName name2 : jsstr) (f : DiskFile) :
  getFile st fileName = Some f -> df_fileType f = FileType_PROGRAM ->
  1 <= Z.of_nat (length (df_program f)) <= 65535 * 256 ->
  (1 <= length fileName <= 10)%nat -> Forall (fun c => 33 <= c < 128) fileName ->
  exists bytes file, createTIFile st fileName = Some bytes /\
    loadTIFile toUpperCase st0 name2 (u8_of_list bytes) false = Some (Some file, putFile st0 file) /\
    df_name file = fileName /\ df_fileType file = FileType_PROGRAM /\
    df_program file = map (fun v => v mod 256) (df_program f).
Proof.
  intros G Ft Hlen Hn Hc.
  set (P := df_program f) in *.
  set (xs := map (fun v => v mod 256) (ti_header fileName f ++ P)).
  assert (CT : createTIFile st fileName = Some xs).
  { unfold createTIFile. rewrite G. replace (df_fileType f =? FileType_DATA) with false by (rewrite Ft; reflexivity).
    reflexivity. }
  assert (LX : Z.of_nat (length xs) = 128 + Z.of_nat (length P)).
  { unfold xs. rewrite length_map, length_app, ti_header_length. lia. }
  set (fb := u8_of_list xs).
  assert (UL : ulen fb = 128 + Z.of_nat (length P)) by (unfold fb; rewrite u8_of_list_ulen; exact LX).
  assert (HP : forall k, (k < length P)%nat -> u8_get fb (128 + Z.of_nat k) = Some (nth k P 0 mod 256)).
  { intros k Hk. unfold fb. rewrite u8_of_list_get by lia. unfold xs.
    replace (Z.to_nat (128 + Z.of_nat k)) with (length (ti_header fileName f) + k)%nat
      by (rewrite ti_header_length; lia).
    rewrite (nth_map_d _ _ _ _ 0) by (rewrite length_app; lia).
    rewrite app_nth2_plus, Z.mod_mod by lia. reflexivity. }
  assert (HU : forall i, 0 <= i < 128 -> u8_get fb i = Some (nth (Z.to_nat i) (ti_header fileName f) 0 mod 256)).
  { intros i Hi. unfold fb. rewrite u8_of_list_get by lia. unfold xs.
    rewrite (nth_map_d _ _ _ _ 0) by (rewrite length_app, ti_header_length; lia).
    rewrite app_nth1 by (rewrite ti_header_length; lia). rewrite Z.mod_mod by lia. reflexivity. }
  assert (HB : forall i, 0 <= i < 128 -> byte_at fb i = nth (Z.to_nat i) (ti_header fileName f) 0 mod 256).
  { intros i Hi. unfold byte_at. rewrite HU by exact Hi. reflexivity. }
  destruct (ti_header_bytes fileName f) as [T0 [T1 [T8 [T9 [T10 T12]]]]].
  assert (IT : isTIFILES fb = true).
  { unfold isTIFILES. change (zrange 1 7) with [1;2;3;4;5;6;7]. cbn [map].
    rewrite !HB by lia. reflexivity. }
  set (L := Z.of_nat (length P)) in *.
  assert (SC : getSectorCount f = ceil_div L 256) by (unfold getSectorCount; rewrite Ft; reflexivity).
  assert (EO : getEOFOffset f = L mod 256) by (unfold getEOFOffset; rewrite Ft; reflexivity).
  assert (SCb : 0 <= ceil_div L 256 < 65536).
  { split; [apply ceil_div_nonneg; lia|]. unfold ceil_div.
    assert ((- (65535 * 256)) / 256 <= (- L) / 256) by (apply Z.div_le_mono; lia).
    change (- (65535 * 256) / 256) with (-65535) in H. lia. }
  assert (SEC : Z.lor (Z.shiftl (byte_at fb 8) 8) (byte_at fb 9) = ceil_div L 256).
  { rewrite !HB by lia. change (Z.to_nat 8) with 8%nat. change (Z.to_nat 9) with 9%nat. rewrite T8, T9.
    rewrite lor_shiftl_byte by (apply Z.mod_pos_bound; lia). rewrite SC. apply word_bytes_join. exact SCb. }
  assert (EOF : byte_at fb 12 = L mod 256).
  { rewrite HB by lia. change (Z.to_nat 12) with 12%nat. rewrite T12, EO.
    apply land_byte_small. apply Z.mod_pos_bound. lia. }
  assert (FT : Z.land (byte_at fb 10) 1 = 1).
  { rewrite HB by lia. change (Z.to_nat 10) with 10%nat. rewrite T10. apply statusFlags_bit0, Ft. }
  destruct fileName as [|c0 rest]; [cbn in Hn; lia|].
  inversion Hc as [|? ? Hc0 Hcr]; subst.
  assert (N16 : (byte_at fb 16 =? 202) = false).
  { rewrite HB by lia. change (Z.to_nat 16) with (16 + 0)%nat. rewrite ti_header_name_nth by lia.
    cbn [firstn app nth]. rewrite Z.mod_small by lia. apply Z.eqb_neq. lia. }
  assert (NAME : js_trim (printable_units fb 16 25) = c0 :: rest).
  { unfold printable_units, zrange. rewrite flat_map_concat_map, map_map, <- flat_map_concat_map.
    replace (Z.to_nat (25 - 16 + 1)) with (length (firstn 10 (c0 :: rest) ++ repeat 32 (10 - length (c0 :: rest))))
      by (rewrite vib_name_length; reflexivity).
    rewrite (flat_map_seq_nth keep_printable).
    - rewrite flat_map_app, flat_map_keep_printable, flat_map_keep_spaces, js_trim_spaces.
      rewrite firstn_all2 by (cbn in Hn |- *; lia). rewrite filter_printable_id by exact Hc.
      apply js_trim_no_ws, Hc.
    - intros k Hk. rewrite vib_name_length in Hk. cbn [Nat.add]. cbv beta. rewrite HU by lia.
      replace (Z.to_nat (16 + Z.of_nat k)) with (16 + k)%nat by lia.
      rewrite ti_header_name_nth by exact Hk. reflexivity. }
  exists xs. eexists. split; [exact CT|]. change (u8_of_list xs) with fb.
  unfold loadTIFile. rewrite UL.
  replace (128 <? 128 + L) with true by (symmetry; apply Z.ltb_lt; lia).
  unfold ti_header_of. rewrite IT. cbv zeta. rewrite N16. cbn [negb andb]. rewrite NAME.
  replace (0 <? Z.of_nat (length (c0 :: rest))) with true by (symmetry; apply Z.ltb_lt; cbn [length]; lia).
  rewrite SEC, EOF, FT, ceil_div_256_eof by lia.
  cbn [h_sectorOffset h_fileLength h_fileType h_recordType h_pcFormat h_recordLength h_tiFileName h_datatype].
  replace (128 + L <=? 128 + L) with true by (symmetry; apply Z.leb_refl).
  replace (1 =? FileType_DATA) with false by reflexivity.
  replace (L <? 0) with false by (symmetry; apply Z.ltb_ge; lia).
  split; [reflexivity|]. cbn [df_name df_fileType df_program setProgram newDiskFile].
  split; [reflexivity|]. split; [reflexivity|].
  unfold read_bytes, zrange. rewrite !map_map.
  replace (Z.to_nat (L - 1 - 0 + 1)) with (length P) by lia.
  apply map_seq_nth. intros k Hk. cbn [Nat.add].
  replace (128 + (0 + Z.of_nat k)) with (128 + Z.of_nat k) by lia.
  rewrite HP by exact Hk. cbn [to_uint8]. apply Z.mod_mod. lia.
Qed.

Lemma createTIFile_loadTIFile_program_witness :
  exists bytes file,
    createTIFile programImage (js "PROG") = Some bytes /\
    loadTIFile ascii_toUpperCase (newDiskImage (js "B") false) (js "x") (u8_of_list bytes) false
      = Some (Some file, putFile (newDiskImage (js "B") false) file) /\
    df_name file = js "PROG" /\ df_program file = [1; 2; 3].
Proof.
  destruct (createTIFile_loadTIFile_program ascii_toUpperCase programImage
              (newDiskImage (js "B") false) (js "PROG") (js "x") programFile)
    as (bytes & file & CT & LT & NM & _ & PR).
  - vm_compute. reflexivity.
  - reflexivity.
  - cbn. lia.
  - cbn. lia.
  - change (js "PROG") with [80; 82; 79; 71]. repeat constructor; lia.
  - exists bytes, file. split; [exact CT | split; [exact LT | split; [exact NM |]]].
    rewrite PR. reflexivity.
Defined.

End Verification.

(** * Instances at the root collation *)

Lemma readSector_full_sector_witness :
  nth 3 (snd (readSector root_localeCompare (newDiskImage (js "DISK") false) 5000)) 0 = 0.
Proof.
  pose proof (readSector_full_sector root_localeCompare (newDiskImage (js "DISK") false) 5000) as [_ H].
  rewrite (H 3%nat ltac:(lia)). vm_compute. reflexivity.
Defined.

Lemma cache_discipline_witness :
  cache_consistent root_localeCompare (newDiskImage (js "DISK") false) /\
  cache_consistent root_localeCompare (fst (readSector root_localeCompare (newDiskImage (js "DISK") false) 0)).
Proof.
  assert (H : cache_consistent root_localeCompare (newDiskImage (js "DISK") false)) by exact I.
  split; [exact H|].
  exact (proj1 (proj2 (proj2 (proj2 (cache_discipline root_localeCompare)))) _ 0 H).
Defined.

Lemma getFilesArray_locale_sorted_witness :
  ~ In (js "hasOwnProperty") (map fst (di_files caseCatalog)) /\
  Sorted (fun a b => root_localeCompare (df_name a) (df_name b) <> Gt) (getFilesArray root_localeCompare caseCatalog).
Proof.
  assert (Hown : ~ In (js "hasOwnProperty") (map fst (di_files caseCatalog)))
    by (vm_compute; intros [Hq|[Hq|[]]]; discriminate Hq).
  split; [exact Hown|].
  exact (proj2 (getFilesArray_locale_sorted root_localeCompare caseCatalog root_localeCompare_antisym Hown)).
Defined.

Lemma createBinaryImage_bitmap_witness :
  1 <= js_num (totalSectors (di_geometry exampleImage)) /\
  u8_get (createBinaryImage root_localeCompare exampleImage) 236 = Some 255.
Proof.
  assert (H : 1 <= js_num (totalSectors (di_geometry exampleImage))) by (vm_compute; discriminate).
  split; [exact H|]. apply (proj1 (createBinaryImage_bitmap root_localeCompare exampleImage H)). lia.
Defined.

Lemma loadBinaryImage_createBinaryImage_volume_witness :
  di_geometry (loadBinaryImage (newDiskImage (js "B") false) (createBinaryImage root_localeCompare exampleImage))
  = di_geometry exampleImage /\
  di_name (loadBinaryImage (newDiskImage (js "B") false) (createBinaryImage root_localeCompare exampleImage))
  = js "DISK".
Proof.
  destruct (loadBinaryImage_createBinaryImage_volume root_localeCompare exampleImage
              (newDiskImage (js "B") false) 1440 18 2 2 2 ltac:(vm_compute; reflexivity)
              ltac:(lia) ltac:(lia) ltac:(lia) ltac:(lia) ltac:(lia)) as [G N].
  split; [exact G|]. rewrite N. vm_compute. reflexivity.
Defined.
